(** * astro-mermaid: the markdown and HTML tree transformers

    A shallow embedding of [astro-mermaid-integration.js]: the HTML escaper
    [escapeHtml], the HAST serializer [serializeHastChildren], and the two
    tree transformers [remarkMermaidPlugin] (markdown tree) and
    [rehypeMermaidPlugin] (HTML tree), with the traversal of
    [unist-util-visit] they both run on.

    JavaScript strings are modelled as [string]: the five characters the
    escaper looks at are ASCII, and every other unit of a string is opaque
    to the code.  Objects with ordered keys ([properties]) are association
    lists in [Object.entries] order.  The trees are trees (no node is shared),
    so the in-place mutation of the source is the function from the tree
    before to the tree after. *)

From Stdlib Require Import String Ascii List Arith Lia Bool DecimalString.
Import ListNotations.

Local Open Scope string_scope.
#[local] Set Warnings "-register-all".

(** ** JavaScript helpers *)

(** The double quote, which a string literal cannot hold directly. *)
Definition dquote : ascii := "034"%char.

(** [Array.prototype.join]. *)
Fixpoint join (sep : string) (items : list string) : string :=
  match items with
  | [] => ""
  | [x] => x
  | x :: rest => x ++ sep ++ join sep rest
  end.

(** [Array.prototype.includes] on an array of strings. *)
Fixpoint includes (items : list string) (x : string) : bool :=
  match items with
  | [] => false
  | y :: rest => (y =? x) || includes rest x
  end.

(** The decimal rendering of a counter in a template literal. *)
Definition nat_to_string (n : nat) : string :=
  NilZero.string_of_uint (Nat.to_uint n).

(** An optional value in string position: [undefined] prints as such. *)
Definition string_of_lookup (o : option string) : string :=
  match o with
  | Some s => s
  | None => "undefined"
  end.

(** ** escapeHtml *)

(** The object literal [htmlEntities], keyed by character. *)
Definition htmlEntities : list (ascii * string) :=
  [ ("&"%char, "&amp;");
    ("<"%char, "&lt;");
    (">"%char, "&gt;");
    (dquote, "&quot;");
    ("'"%char, "&#39;") ].

(** The character class of the regular expression. *)
Definition html_special : list ascii :=
  [ "&"%char; "<"%char; ">"%char; dquote; "'"%char ].

Fixpoint in_class (cls : list ascii) (c : ascii) : bool :=
  match cls with
  | [] => false
  | d :: rest => Ascii.eqb c d || in_class rest c
  end.

Fixpoint entity_lookup (table : list (ascii * string)) (c : ascii) : option string :=
  match table with
  | [] => None
  | (d, e) :: rest => if Ascii.eqb c d then Some e else entity_lookup rest c
  end.

(** [text.replace(/[cls]/g, f)]: the global replacement of a one-character
    class scans the subject once, left to right; a character of the class is
    replaced by what the callback returns for it, any other is copied. *)
Fixpoint replace_class (cls : list ascii) (f : ascii -> string) (text : string) : string :=
  match text with
  | EmptyString => EmptyString
  | String c rest =>
      (if in_class cls c then f c else String c EmptyString) ++ replace_class cls f rest
  end.

Definition escapeHtml (text : string) : string :=
  replace_class html_special
    (fun char => string_of_lookup (entity_lookup htmlEntities char)) text.

(** *** The escaper as the specification words it

    One entity per special character, every other character itself, the
    images concatenated in order. *)
Definition entity_spec (c : ascii) : string :=
  if Ascii.eqb c "&" then "&amp;"
  else if Ascii.eqb c "<" then "&lt;"
  else if Ascii.eqb c ">" then "&gt;"
  else if Ascii.eqb c dquote then "&quot;"
  else if Ascii.eqb c "'" then "&#39;"
  else String c EmptyString.

Fixpoint escapeHtml_spec (text : string) : string :=
  match text with
  | EmptyString => EmptyString
  | String c rest => entity_spec c ++ escapeHtml_spec rest
  end.

(** *** HTML unescaping (the reference inverse of the five substitutions)

    Not a function of the plugin: the decoder the round-trip property is
    stated against.  It reads left to right; where one of the five entities
    starts it emits the character the entity names and skips the rest of the
    entity, which is never read again. *)
Fixpoint entity_at (table : list (ascii * string)) (s : string) : option (ascii * nat) :=
  match table with
  | [] => None
  | (c, e) :: rest =>
      if prefix e s then Some (c, String.length e) else entity_at rest s
  end.

Fixpoint unescape_from (skip : nat) (s : string) : string :=
  match s with
  | EmptyString => EmptyString
  | String c rest =>
      match skip with
      | S k => unescape_from k rest
      | O =>
          match entity_at htmlEntities s with
          | Some (ch, len) => String ch (unescape_from (Nat.pred len) rest)
          | None => String c (unescape_from 0 rest)
          end
      end
  end.

Definition unescapeHtml (s : string) : string := unescape_from 0 s.

(** Occurrences of a character, and of a (non-empty) substring, in a string. *)
Fixpoint count_char (c : ascii) (s : string) : nat :=
  match s with
  | EmptyString => 0
  | String d rest => (if Ascii.eqb d c then 1 else 0) + count_char c rest
  end.


Fixpoint occurs (c : ascii) (s : string) : Prop :=
  match s with
  | EmptyString => False
  | String d rest => d = c \/ occurs c rest
  end.

(** ** Syntax trees *)

(** A HAST property value: what a parser stores under a property name.
    The code does one thing with a number, print it in a template literal,
    so a number is kept as the text [Number::toString] gives for it
    ([1152921504606847000] for [2^60], [1e+21], [0.5]): every number has
    that text, and the text is all the code sees of it.  The same holds for
    a number among the items of an array. *)
Inductive PropertyValue : Type :=
| PVString (s : string)
| PVNumber (rendering : string)
| PVBool (b : bool)
| PVNull
| PVArray (items : list string).

(** [properties]: an object, as its entries in [Object.entries] order. *)
Definition Properties : Type := list (string * PropertyValue).

(** HAST nodes.  [properties] and [children] of an element are optional
    because the code guards every access to them. *)
Inductive hast : Type :=
| Text (value : string)
| Element (tagName : string) (properties : option Properties)
    (children : option (list hast))
| Comment (value : string)
| Doctype
| Root (children : list hast).

(** MDAST nodes: the code block, the raw HTML node, and every other node as
    a literal or a parent carrying its [type]. *)
Inductive mdast : Type :=
| MdCode (lang : option string) (meta : option string) (value : string)
| MdHtml (value : string)
| MdLiteral (type : string) (value : string)
| MdParent (type : string) (children : list mdast).

(** [obj[key]]. *)
Fixpoint prop_get (key : string) (props : Properties) : option PropertyValue :=
  match props with
  | [] => None
  | (k, v) :: rest => if k =? key then Some v else prop_get key rest
  end.

(** [{ ...props, key: v }]: an existing key keeps its place and takes the new
    value, a new key goes last. *)
Fixpoint prop_set (key : string) (v : PropertyValue) (props : Properties) : Properties :=
  match props with
  | [] => [(key, v)]
  | (k, w) :: rest =>
      if k =? key then (k, v) :: rest else (k, w) :: prop_set key v rest
  end.

(** A property value inside a template literal. *)
Definition template_string (v : PropertyValue) : string :=
  match v with
  | PVString s => s
  | PVNumber rendering => rendering
  | PVBool true => "true"
  | PVBool false => "false"
  | PVNull => "null"
  | PVArray items => join "," items
  end.

Definition tagName_of (n : hast) : option string :=
  match n with
  | Element t _ _ => Some t
  | _ => None
  end.

Definition properties_of (n : hast) : option Properties :=
  match n with
  | Element _ p _ => p
  | _ => None
  end.

Definition children_of (n : hast) : option (list hast) :=
  match n with
  | Element _ _ ch => ch
  | Root cs => Some cs
  | _ => None
  end.

(** ** serializeHastChildren *)

Definition void_tags : list string := ["br"; "hr"; "img"; "input"; "meta"; "link"].

Definition quoted (s : string) : string :=
  String dquote s ++ String dquote EmptyString.

(** The loop over [Object.entries(child.properties)], appending to [result]. *)
Fixpoint serialize_properties (entries : Properties) (result : string) : string :=
  match entries with
  | [] => result
  | (key, value) :: rest =>
      serialize_properties rest
        (if negb (key =? "className") then
           result ++ " " ++ key ++ "=" ++ quoted (template_string value)
         else
           match value with
           | PVArray items => result ++ " class=" ++ quoted (join " " items)
           | _ => result
           end)
  end.

(** One turn of the [for (const child of children)] loop: [result] before
    the child, [result] after it.  The inner [loop] is the recursive call
    [serializeHastChildren(child.children)]: the same loop over the
    grandchildren, from an empty [result]. *)
Fixpoint serialize_child (child : hast) (result : string) : string :=
  match child with
  | Text value => result ++ value
  | Element tagName properties children =>
      let selfClosing := includes void_tags tagName in
      let result := result ++ "<" ++ tagName in
      let result :=
        match properties with
        | Some props => serialize_properties props result
        | None => result
        end in
      if selfClosing then result ++ "/>"
      else
        let result := result ++ ">" in
        let result :=
          match children with
          | Some ((_ :: _) as cs) =>
              result ++
              (fix loop (l : list hast) (acc : string) : string :=
                 match l with
                 | [] => acc
                 | c :: l' => loop l' (serialize_child c acc)
                 end) cs ""
          | _ => result
          end in
        result ++ "</" ++ tagName ++ ">"
  | _ => result
  end.

Definition serializeHastChildren (children : list hast) : string :=
  fold_left (fun result child => serialize_child child result) children "".

(** *** The serializer as the specification words it

    Written without the helpers of the code: the six void tags by name, the
    double quote as character 34, the library's [String.concat] for the
    joins, and the printed form of each kind of value spelled out. *)

Definition is_void_spec (tagName : string) : bool :=
  (tagName =? "br") || (tagName =? "hr") || (tagName =? "img")
  || (tagName =? "input") || (tagName =? "meta") || (tagName =? "link").

Definition value_spec (value : PropertyValue) : string :=
  match value with
  | PVString s => s
  | PVNumber rendering => rendering
  | PVBool true => "true"
  | PVBool false => "false"
  | PVNull => "null"
  | PVArray items => String.concat "," items
  end.

Fixpoint attributes_spec (props : Properties) : string :=
  match props with
  | [] => ""
  | (key, value) :: rest =>
      (if key =? "className" then
         match value with
         | PVArray items =>
             " class=" ++ String "034" (String.concat " " items ++ String "034" "")
         | _ => ""
         end
       else " " ++ key ++ "=" ++ String "034" (value_spec value ++ String "034" ""))
      ++ attributes_spec rest
  end.

Fixpoint serialize_node_spec (n : hast) : string :=
  match n with
  | Text value => value
  | Element tagName properties children =>
      "<" ++ tagName
      ++ match properties with Some props => attributes_spec props | None => "" end
      ++ (if is_void_spec tagName then "/>"
          else ">"
               ++ match children with
                  | Some cs => String.concat "" (map serialize_node_spec cs)
                  | None => ""
                  end
               ++ "</" ++ tagName ++ ">")
  | _ => ""
  end.

Definition serialize_spec (children : list hast) : string :=
  String.concat "" (map serialize_node_spec children).

(** ** The traversal state

    Each transformer call owns a counter [mermaidCount]; what the injected
    logger is told is kept, in order, in [logged].  A traversal that runs out
    of fuel has no result. *)
Record VisitState : Type := mkState {
  mermaidCount : nat;
  logged : list string
}.

Definition Visit (A : Type) : Type := VisitState -> option (A * VisitState).

Definition ret {A : Type} (a : A) : Visit A := fun st => Some (a, st).

Definition bind {A B : Type} (m : Visit A) (k : A -> Visit B) : Visit B :=
  fun st =>
    match m st with
    | Some (a, st') => k a st'
    | None => None
    end.

Definition out_of_fuel {A : Type} : Visit A := fun _ => None.

Notation "x <- m ;; k" := (bind m (fun x => k))
  (at level 61, m at next level, right associativity).

(** [mermaidCount++], giving the new count. *)
Definition count_block : Visit nat :=
  fun st => Some (S (mermaidCount st), mkState (S (mermaidCount st)) (logged st)).

Definition get_count : Visit nat := fun st => Some (mermaidCount st, st).

(** The plugin options: only whether a logger was supplied matters. *)
Record Options : Type := mkOptions { logger : bool }.

(** The [file] argument: only its optional [path] is read. *)
Record VFile : Type := mkFile { path : option string }.

(** [if (options.logger) options.logger.info(msg)]. *)
Definition logger_info (options : Options) (msg : string) : Visit unit :=
  fun st =>
    if logger options
    then Some (tt, mkState (mermaidCount st) (logged st ++ [msg])%list)
    else Some (tt, st).

(** [file.path || 'unknown file']: an empty path is falsy too. *)
Definition file_label (file : VFile) : string :=
  match path file with
  | Some p => if p =? "" then "unknown file" else p
  | None => "unknown file"
  end.

(** ** unist-util-visit

    The traversal both plugins import.  [visit(tree, test, visitor)] walks
    the tree in preorder: on a node whose [type] is [test] it calls
    [visitor(node, index, parent)], then walks the children the node has
    after that call, left to right.  A visitor can change the node it is
    given, and can put another node in its slot [parent.children[index]]. *)
Class Unist (N : Type) : Type := {
  node_type : N -> string;
  node_children : N -> option (list N);
  with_children : N -> list N -> N
}.

(** What a visitor call leaves behind: the node as it now is (the walk goes
    on into its children), and the node now in the parent's slot when the
    visitor assigned one. *)
Record Visited (N : Type) : Type := mkVisited {
  node_after : N;
  slot_after : option N
}.
Arguments mkVisited {N} _ _.
Arguments node_after {N} _.
Arguments slot_after {N} _.

Definition untouched {N : Type} (node : N) : Visited N := mkVisited node None.

Section Traversal.
Context {N : Type} `{Unist N}.

(** The loop over [children[offset]]. *)
Fixpoint walk (step : option nat -> N -> Visit N) (offset : nat)
    (children : list N) : Visit (list N) :=
  match children with
  | [] => ret []
  | child :: rest =>
      child' <- step (Some offset) child ;;
      rest' <- walk step (S offset) rest ;;
      ret (child' :: rest')
  end.

(** The result is the node that ends up in the slot of [node] (the tree
    itself at the root, where [index] is [None]). *)
Fixpoint visit (fuel : nat) (test : string)
    (visitor : option nat -> N -> Visit (Visited N))
    (index : option nat) (node : N) : Visit N :=
  match fuel with
  | O => out_of_fuel
  | S fuel' =>
      r <- (if node_type node =? test then visitor index node
            else ret (untouched node)) ;;
      walked <- match node_children (node_after r) with
                | Some children =>
                    children' <- walk (visit fuel' test visitor) 0 children ;;
                    ret (with_children (node_after r) children')
                | None => ret (node_after r)
                end ;;
      ret (match slot_after r with
           | Some replacement => replacement
           | None => walked
           end)
  end.
End Traversal.

#[export] Instance hast_unist : Unist hast := {
  node_type n :=
    match n with
    | Text _ => "text"
    | Element _ _ _ => "element"
    | Comment _ => "comment"
    | Doctype => "doctype"
    | Root _ => "root"
    end;
  node_children := children_of;
  with_children n cs :=
    match n with
    | Element t p _ => Element t p (Some cs)
    | Root _ => Root cs
    | other => other
    end
}.

#[export] Instance mdast_unist : Unist mdast := {
  node_type n :=
    match n with
    | MdCode _ _ _ => "code"
    | MdHtml _ => "html"
    | MdLiteral t _ => t
    | MdParent t _ => t
    end;
  node_children n :=
    match n with
    | MdParent _ cs => Some cs
    | _ => None
    end;
  with_children n cs :=
    match n with
    | MdParent t _ => MdParent t cs
    | other => other
    end
}.

Fixpoint hast_height (n : hast) : nat :=
  match n with
  | Element _ _ (Some cs) => S (fold_right Nat.max 0 (map hast_height cs))
  | Root cs => S (fold_right Nat.max 0 (map hast_height cs))
  | _ => 0
  end.

Fixpoint mdast_height (n : mdast) : nat :=
  match n with
  | MdParent _ cs => S (fold_right Nat.max 0 (map mdast_height cs))
  | _ => 0
  end.

Definition initial_state : VisitState := mkState 0 [].

(** ** remarkMermaidPlugin *)

Definition mermaid_container (value : string) : string :=
  "<pre class=" ++ quoted "mermaid" ++ ">" ++ escapeHtml value ++ "</pre>".

Definition remark_visitor (options : Options) (file : VFile)
    (index : option nat) (node : mdast) : Visit (Visited mdast) :=
  match node with
  | MdCode (Some lang) _ value =>
      if lang =? "mermaid" then
        count <- count_block ;;
        let htmlNode := MdHtml (mermaid_container value) in
        _ <- logger_info options
               ("Remark transformed mermaid block #" ++ nat_to_string count
                ++ " in " ++ file_label file) ;;
        ret (mkVisited node
               (match index with Some _ => Some htmlNode | None => None end))
      else ret (untouched node)
  | _ => ret (untouched node)
  end.

Definition remark_transformer (fuel : nat) (options : Options)
    (tree : mdast) (file : VFile) : Visit mdast :=
  tree' <- visit fuel "code" (remark_visitor options file) None tree ;;
  count <- get_count ;;
  _ <- (if Nat.ltb 0 count && logger options
        then logger_info options
               ("Remark total mermaid blocks transformed: " ++ nat_to_string count)
        else ret tt) ;;
  ret tree'.

(** The transformer on a fresh counter, with the fuel the tree needs. *)
Definition remarkMermaidPlugin (options : Options) (tree : mdast) (file : VFile)
    : option (mdast * VisitState) :=
  remark_transformer (S (mdast_height tree)) options tree file initial_state.

(** ** rehypeMermaidPlugin *)

Definition rehype_visitor (options : Options) (file : VFile)
    (index : option nat) (node : hast) : Visit (Visited hast) :=
  match node with
  | Element tagName properties (Some [codeNode]) =>
      if (tagName =? "pre")
         && match tagName_of codeNode with
            | Some t => t =? "code"
            | None => false
            end
      then
        let className :=
          match properties_of codeNode with
          | Some props => prop_get "className" props
          | None => None
          end in
        match className with
        | Some (PVArray tokens) =>
            if includes tokens "language-mermaid" then
              count <- count_block ;;
              let diagramContent :=
                serializeHastChildren
                  (match children_of codeNode with Some cs => cs | None => [] end) in
              let properties' :=
                prop_set "className" (PVArray ["mermaid"])
                  (match properties with Some props => props | None => [] end) in
              let node' :=
                Element tagName (Some properties')
                  (Some [Text (escapeHtml diagramContent)]) in
              _ <- logger_info options
                     ("Rehype transformed mermaid block #" ++ nat_to_string count
                      ++ " in " ++ file_label file) ;;
              ret (untouched node')
            else ret (untouched node)
        | _ => ret (untouched node)
        end
      else ret (untouched node)
  | _ => ret (untouched node)
  end.

Definition rehype_transformer (fuel : nat) (options : Options)
    (tree : hast) (file : VFile) : Visit hast :=
  tree' <- visit fuel "element" (rehype_visitor options file) None tree ;;
  count <- get_count ;;
  _ <- (if Nat.ltb 0 count && logger options
        then logger_info options
               ("Rehype total mermaid blocks transformed: " ++ nat_to_string count)
        else ret tt) ;;
  ret tree'.

Definition rehypeMermaidPlugin (options : Options) (tree : hast) (file : VFile)
    : option (hast * VisitState) :=
  rehype_transformer (S (hast_height tree)) options tree file initial_state.

(** ** Positions, match predicates and the trees after a pass

    The vocabulary of the statements below: the node at a path of child
    indexes, the test either visitor applies, and for each pass the tree it
    leaves, written by recursion on the tree (proved equal to what the
    traversal computes). *)

Fixpoint node_at {N : Type} `{Unist N} (n : N) (p : list nat) : option N :=
  match p with
  | [] => Some n
  | i :: q =>
      match node_children n with
      | Some cs =>
          match nth_error cs i with
          | Some c => node_at c q
          | None => None
          end
      | None => None
      end
  end.

(** The condition under which [rehype_visitor] rewrites a node. *)
Definition is_mermaid_pre (node : hast) : bool :=
  match node with
  | Element tagName _ (Some [Element codeTag (Some props) _]) =>
      (tagName =? "pre") && (codeTag =? "code")
      && match prop_get "className" props with
         | Some (PVArray tokens) => includes tokens "language-mermaid"
         | _ => false
         end
  | _ => false
  end.

(** What [rehype_visitor] makes of a node it rewrites. *)
Definition diagram_container (node : hast) : hast :=
  match node with
  | Element tagName properties (Some [codeNode]) =>
      Element tagName
        (Some (prop_set "className" (PVArray ["mermaid"])
                 (match properties with Some props => props | None => [] end)))
        (Some [Text (escapeHtml
                       (serializeHastChildren
                          (match children_of codeNode with
                           | Some cs => cs
                           | None => []
                           end)))])
  | _ => node
  end.

Fixpoint rehype_tree (n : hast) : hast :=
  if is_mermaid_pre n then diagram_container n
  else
    match n with
    | Element t p (Some cs) => Element t p (Some (map rehype_tree cs))
    | Root cs => Root (map rehype_tree cs)
    | _ => n
    end.

(** The blocks the HTML pass counts. *)
Fixpoint rehype_blocks (n : hast) : nat :=
  if is_mermaid_pre n then 1
  else
    match n with
    | Element _ _ (Some cs) => list_sum (map rehype_blocks cs)
    | Root cs => list_sum (map rehype_blocks cs)
    | _ => 0
    end.

(** No node strictly above the end of path [p] is a matching [pre]: the
    traversal gets to the node at [p]. *)
Fixpoint outside_diagrams (n : hast) (p : list nat) : bool :=
  match p with
  | [] => true
  | i :: q =>
      negb (is_mermaid_pre n)
      && match children_of n with
         | Some cs =>
             match nth_error cs i with
             | Some c => outside_diagrams c q
             | None => true
             end
         | None => true
         end
  end.

(** [P] holds of the node and of every node below it. *)
Fixpoint hast_all (P : hast -> bool) (n : hast) : bool :=
  P n
  && match n with
     | Element _ _ (Some cs) => forallb (hast_all P) cs
     | Root cs => forallb (hast_all P) cs
     | _ => true
     end.

Fixpoint mdast_all (P : mdast -> bool) (n : mdast) : bool :=
  P n
  && match n with
     | MdParent _ cs => forallb (mdast_all P) cs
     | _ => true
     end.



(** The condition under which [remark_visitor] acts on a node. *)
Definition is_mermaid_code (n : mdast) : bool :=
  match n with
  | MdCode (Some lang) _ _ => lang =? "mermaid"
  | _ => false
  end.

(** What the markdown pass leaves in the slot of a node that has a parent. *)
Fixpoint remark_slot (n : mdast) : mdast :=
  match n with
  | MdCode (Some lang) _ value =>
      if lang =? "mermaid" then MdHtml (mermaid_container value) else n
  | MdParent t cs => MdParent t (map remark_slot cs)
  | _ => n
  end.

(** The tree the markdown pass leaves: the root has no slot. *)
Definition remark_tree (n : mdast) : mdast :=
  match n with
  | MdParent t cs => MdParent t (map remark_slot cs)
  | _ => n
  end.

Fixpoint remark_blocks (n : mdast) : nat :=
  match n with
  | MdCode (Some lang) _ _ => if lang =? "mermaid" then 1 else 0
  | MdParent _ cs => list_sum (map remark_blocks cs)
  | _ => 0
  end.

(** Induction over a tree with the hypothesis on every child. *)
Fixpoint hast_induction (P : hast -> Prop)
    (HText : forall v, P (Text v))
    (HLeaf : forall t p, P (Element t p None))
    (HElement : forall t p cs, Forall P cs -> P (Element t p (Some cs)))
    (HComment : forall v, P (Comment v))
    (HDoctype : P Doctype)
    (HRoot : forall cs, Forall P cs -> P (Root cs))
    (n : hast) {struct n} : P n :=
  let all :=
    fix all (cs : list hast) : Forall P cs :=
      match cs with
      | [] => Forall_nil P
      | c :: cs' =>
          Forall_cons c
            (hast_induction P HText HLeaf HElement HComment HDoctype HRoot c)
            (all cs')
      end in
  match n with
  | Text v => HText v
  | Element t p None => HLeaf t p
  | Element t p (Some cs) => HElement t p cs (all cs)
  | Comment v => HComment v
  | Doctype => HDoctype
  | Root cs => HRoot cs (all cs)
  end.

Fixpoint mdast_induction (P : mdast -> Prop)
    (HCode : forall l m v, P (MdCode l m v))
    (HHtml : forall v, P (MdHtml v))
    (HLiteral : forall t v, P (MdLiteral t v))
    (HParent : forall t cs, Forall P cs -> P (MdParent t cs))
    (n : mdast) {struct n} : P n :=
  match n with
  | MdCode l m v => HCode l m v
  | MdHtml v => HHtml v
  | MdLiteral t v => HLiteral t v
  | MdParent t cs =>
      HParent t cs
        ((fix all (cs : list mdast) : Forall P cs :=
            match cs with
            | [] => Forall_nil P
            | c :: cs' =>
                Forall_cons c
                  (mdast_induction P HCode HHtml HLiteral HParent c) (all cs')
            end) cs)
  end.

(** ** Vocabulary of the statements *)

(** The five special characters are exactly the keys of the table. *)
Definition is_special (c : ascii) : bool := in_class html_special c.

(** From [st] to [st'] the counter went up by [k], and nothing was logged
    when no logger was supplied. *)
Definition advances (options : Options) (k : nat) (st st' : VisitState) : Prop :=
  mermaidCount st' = mermaidCount st + k
  /\ (logger options = false -> logged st' = logged st).

(** What the logger is told of one block. *)
Definition rehype_message (file : VFile) (count : nat) : string :=
  "Rehype transformed mermaid block #" ++ nat_to_string count
  ++ " in " ++ file_label file.

Definition remark_message (file : VFile) (count : nat) : string :=
  "Remark transformed mermaid block #" ++ nat_to_string count
  ++ " in " ++ file_label file.

(** What the pass leaves where [node] was: its slot when it has a parent,
    the node itself at the root. *)
Definition remark_result (index : option nat) (node : mdast) : mdast :=
  match index with
  | Some _ => remark_slot node
  | None => remark_tree node
  end.

(** What the visitor's test reads of a candidate child: its class list. *)
Definition class_list (properties : option Properties) : option PropertyValue :=
  match properties with
  | Some props => prop_get "className" props
  | None => None
  end.

(** The [pre] elements the specification says must be left alone: more than
    one child, a single child that is not a [code] element, or a [code]
    child whose class list is absent, is not an array, or lacks the token. *)
Inductive not_a_diagram : hast -> Prop :=
| several_children (props : option Properties) (c1 c2 : hast) (cs : list hast) :
    not_a_diagram (Element "pre" props (Some (c1 :: c2 :: cs)))
| child_not_code (props : option Properties) (c : hast) :
    tagName_of c <> Some "code" ->
    not_a_diagram (Element "pre" props (Some [c]))
| code_without_token (props codeProps : option Properties)
    (codeChildren : option (list hast)) :
    (forall tokens, class_list codeProps = Some (PVArray tokens) ->
                    ~ In "language-mermaid" tokens) ->
    not_a_diagram (Element "pre" props (Some [Element "code" codeProps codeChildren])).

Definition language_mermaid : Properties :=
  [("className", PVArray ["language-mermaid"])].

(** [<pre><code class="language-mermaid">children</code></pre>]. *)
Definition code_block (props : option Properties) (children : list hast) : hast :=
  Element "pre" props
    (Some [Element "code" (Some language_mermaid) (Some children)]).

(** A diagram block written inside the code of another. *)
Definition inner_diagram : hast := code_block None [Text "b"].
Definition nested_diagram : hast := code_block None [Text "a"; inner_diagram].

(** A [pre] whose only child is a [div] that holds a diagram block. *)
Definition wrapped_diagram : hast :=
  Element "pre" None (Some [Element "div" None (Some [code_block None [Text "x"]])]).

(** ** Further vocabulary: plain text, lengths *)

(** Some character of the string is one of the five the escaper replaces. *)
Fixpoint has_special (s : string) : bool :=
  match s with
  | EmptyString => false
  | String c rest => is_special c || has_special rest
  end.

(** What a logger has been told after [n] more blocks, the counter having
    stood at [from]: one report per block, numbered on from [from]. *)
Definition block_reports (message : nat -> string) (options : Options)
    (from n : nat) : list string :=
  if logger options then map message (seq (S from) n) else [].

(** The traversal state [n] blocks later. *)
Definition after_blocks (message : nat -> string) (options : Options)
    (n : nat) (st : VisitState) : VisitState :=
  mkState (mermaidCount st + n)
    (logged st ++ block_reports message options (mermaidCount st) n).

(** The closing report of a transformer, made when a logger is there and a
    block was counted. *)
Definition closing_report (label : string) (options : Options) (count : nat)
    : list string :=
  if Nat.ltb 0 count && logger options
  then [label ++ nat_to_string count] else [].

(** ** The client script: which theme a page gets

    The part of [initMermaid] that picks [currentTheme], a pure expression
    over the two [data-theme] attributes.  [getAttribute] gives [null]
    ([None]) or a string.  A value of the script is a string, [undefined],
    or an object or function known by name; the theme of the default
    configuration, [defaultConfig.theme], is whatever value the options
    put there. *)
Inductive JsValue : Type :=
| VUndefined
| VString (s : string)
| VObject (name : string).

(** Truthiness, as [||] tests it. *)
Definition truthy (v : JsValue) : bool :=
  match v with
  | VUndefined => false
  | VString s => negb (s =? "")
  | VObject _ => true
  end.

(** The object literal [themeMap]. *)
Definition themeMap : list (string * string) :=
  [ ("light", "default");
    ("dark", "dark");
    ("catppuccin-mocha", "dark");
    ("catppuccin-latte", "default");
    ("dracula", "dark");
    ("gruvbox-dark-soft", "dark");
    ("gruvbox-light-soft", "default");
    ("one-dark-pro", "dark");
    ("one-light", "default");
    ("snazzy-light", "default");
    ("solarized-light", "default");
    ("synthwave-84", "dark") ].

(** The names every object literal inherits from [Object.prototype]. *)
Definition object_prototype_keys : list string :=
  [ "constructor"; "hasOwnProperty"; "isPrototypeOf"; "propertyIsEnumerable";
    "toLocaleString"; "toString"; "valueOf"; "__proto__";
    "__defineGetter__"; "__defineSetter__"; "__lookupGetter__";
    "__lookupSetter__" ].

Fixpoint own_get (entries : list (string * string)) (key : string) : option string :=
  match entries with
  | [] => None
  | (k, v) :: rest => if k =? key then Some v else own_get rest key
  end.

(** [literal[key]]: an own property, else an inherited member, else
    [undefined]. *)
Definition literal_get (entries : list (string * string)) (key : string) : JsValue :=
  match own_get entries key with
  | Some v => VString v
  | None => if includes object_prototype_keys key then VObject key else VUndefined
  end.

(** [htmlTheme || bodyTheme] on two attribute values. *)
Definition attribute_or (first second : option string) : option string :=
  match first with
  | Some s => if s =? "" then second else Some s
  | None => second
  end.

(** The property name a possibly [null] attribute value indexes with. *)
Definition property_key (attribute : option string) : string :=
  match attribute with
  | Some s => s
  | None => "null"
  end.

Definition currentTheme (autoTheme : bool) (defaultTheme : JsValue)
    (htmlTheme bodyTheme : option string) : JsValue :=
  if autoTheme then
    let dataTheme := attribute_or htmlTheme bodyTheme in
    let mapped := literal_get themeMap (property_key dataTheme) in
    if truthy mapped then mapped else defaultTheme
  else defaultTheme.

(** * Properties *)

(** ** Strings *)

Section StringFacts.

Lemma append_nil_r (s : string) : s ++ "" = s.
Proof. induction s as [|c s IH]; simpl; [reflexivity | now rewrite IH]. Qed.

Lemma append_assoc (a b c : string) : (a ++ b) ++ c = a ++ (b ++ c).
Proof. induction a as [|x a IH]; simpl; [reflexivity | now rewrite IH]. Qed.

Lemma prefix_empty (s : string) : prefix "" s = true.
Proof. destruct s; reflexivity. Qed.

Lemma prefix_cons_neq (a c : ascii) (p t : string) :
  a <> c -> prefix (String a p) (String c t) = false.
Proof.
  intros Hne. cbn [prefix]. destruct (ascii_dec a c); [contradiction | reflexivity].
Qed.

Lemma occurs_append (c : ascii) (a b : string) :
  occurs c (a ++ b) <-> occurs c a \/ occurs c b.
Proof.
  induction a as [|x a IH]; simpl.
  - tauto.
  - rewrite IH. tauto.
Qed.

Lemma count_char_append (c : ascii) (a b : string) :
  count_char c (a ++ b) = count_char c a + count_char c b.
Proof.
  induction a as [|x a IH]; simpl; [reflexivity | rewrite IH; lia].
Qed.

Lemma concat_empty_cons (x : string) (xs : list string) :
  String.concat "" (x :: xs) = x ++ String.concat "" xs.
Proof.
  destruct xs as [|y ys]; simpl; [now rewrite append_nil_r | reflexivity].
Qed.

End StringFacts.

(** ** escapeHtml *)

(** Case analysis of a character against the five special ones. *)
Ltac split_char c :=
  let E := fresh "E" in
  destruct (Ascii.eqb_spec c "&") as [E|E]; [subst c|];
  [|destruct (Ascii.eqb_spec c "<") as [E1|E1]; [subst c|];
    [|destruct (Ascii.eqb_spec c ">") as [E2|E2]; [subst c|];
      [|destruct (Ascii.eqb_spec c dquote) as [E3|E3]; [subst c|];
        [|destruct (Ascii.eqb_spec c "'") as [E4|E4]; [subst c|]]]]].

Section Escaping.

Lemma escape_char (c : ascii) :
  (if in_class html_special c
   then string_of_lookup (entity_lookup htmlEntities c)
   else String c EmptyString) = entity_spec c.
Proof.
  unfold entity_spec, html_special, htmlEntities; simpl.
  destruct (Ascii.eqb c "&"); [reflexivity|].
  destruct (Ascii.eqb c "<"); [reflexivity|].
  destruct (Ascii.eqb c ">"); [reflexivity|].
  destruct (Ascii.eqb c dquote); [reflexivity|].
  destruct (Ascii.eqb c "'"); reflexivity.
Qed.

Lemma escapeHtml_cons (c : ascii) (s : string) :
  escapeHtml (String c s) = entity_spec c ++ escapeHtml s.
Proof.
  unfold escapeHtml; cbn [replace_class]. now rewrite escape_char.
Qed.

Lemma escapeHtml_append (a b : string) :
  escapeHtml (a ++ b) = escapeHtml a ++ escapeHtml b.
Proof.
  induction a as [|c a IH]; [reflexivity|].
  simpl append. rewrite !escapeHtml_cons, IH. now rewrite append_assoc.
Qed.

Lemma entity_spec_plain (c : ascii) :
  is_special c = false -> entity_spec c = String c EmptyString.
Proof.
  unfold is_special, entity_spec, html_special; simpl.
  destruct (Ascii.eqb c "&"); [discriminate|].
  destruct (Ascii.eqb c "<"); [discriminate|].
  destruct (Ascii.eqb c ">"); [discriminate|].
  destruct (Ascii.eqb c dquote); [discriminate|].
  destruct (Ascii.eqb c "'"); [discriminate|reflexivity].
Qed.

Lemma entity_at_plain (c : ascii) (t : string) :
  c <> "&"%char -> entity_at htmlEntities (String c t) = None.
Proof.
  intros Hne. unfold htmlEntities; cbn [entity_at].
  rewrite !prefix_cons_neq by congruence. reflexivity.
Qed.

(** Decoding one escaped character gives the character back and leaves
    the decoder at the start of the rest. *)
Lemma unescape_entity (c : ascii) (t : string) :
  unescape_from 0 (entity_spec c ++ t) = String c (unescape_from 0 t).
Proof.
  split_char c; try (cbn; rewrite ?prefix_empty; reflexivity).
  unfold entity_spec.
  rewrite (proj2 (Ascii.eqb_neq _ _) E), (proj2 (Ascii.eqb_neq _ _) E1),
    (proj2 (Ascii.eqb_neq _ _) E2), (proj2 (Ascii.eqb_neq _ _) E3),
    (proj2 (Ascii.eqb_neq _ _) E4).
  cbn [append unescape_from]. now rewrite entity_at_plain.
Qed.

Lemma unescape_escape (s : string) : unescapeHtml (escapeHtml s) = s.
Proof.
  unfold unescapeHtml.
  induction s as [|c s IH]; [reflexivity|].
  rewrite escapeHtml_cons, unescape_entity, IH. reflexivity.
Qed.

(** No escaped character holds a markup delimiter. *)
Lemma entity_spec_clean (c d : ascii) :
  d = "<"%char \/ d = ">"%char \/ d = dquote \/ d = "'"%char ->
  ~ occurs d (entity_spec c).
Proof.
  intros Hd Hocc.
  split_char c;
    try (cbn in Hocc; unfold dquote in *;
         repeat (destruct Hocc as [Hocc|Hocc]; [subst d; intuition discriminate|]);
         exact Hocc).
  rewrite entity_spec_plain in Hocc.
  - simpl in Hocc. destruct Hocc as [->|[]]. intuition congruence.
  - unfold is_special, html_special; simpl.
    rewrite (proj2 (Ascii.eqb_neq _ _) E), (proj2 (Ascii.eqb_neq _ _) E1),
      (proj2 (Ascii.eqb_neq _ _) E2), (proj2 (Ascii.eqb_neq _ _) E3),
      (proj2 (Ascii.eqb_neq _ _) E4). reflexivity.
Qed.

Lemma escapeHtml_clean (d : ascii) (s : string) :
  d = "<"%char \/ d = ">"%char \/ d = dquote \/ d = "'"%char ->
  ~ occurs d (escapeHtml s).
Proof.
  intros Hd. induction s as [|c s IH]; [intros []|].
  rewrite escapeHtml_cons, occurs_append.
  intros [H|H]; [exact (entity_spec_clean c d Hd H) | exact (IH H)].
Qed.



End Escaping.

(** The scenarios of the test suite: special characters, and markup typed
    inside a diagram. *)
Example escapeHtml_special_characters :
  escapeHtml "A[Quote & Ampersand] --> B['Single quotes']"
  = "A[Quote &amp; Ampersand] --&gt; B[&#39;Single quotes&#39;]".
Proof. reflexivity. Qed.

Example escapeHtml_markup :
  escapeHtml "A[<u>B</u>]" = "A[&lt;u&gt;B&lt;/u&gt;]"
  /\ unescapeHtml "A[&lt;u&gt;B&lt;/u&gt;]" = "A[<u>B</u>]".
Proof. split; reflexivity. Qed.

(** ** serializeHastChildren *)

Section Serializer.

(** The recursive call of the source, named. *)
Lemma serialize_child_element (tagName : string) (properties : option Properties)
    (children : option (list hast)) (result : string) :
  serialize_child (Element tagName properties children) result =
  let opened :=
    match properties with
    | Some props => serialize_properties props (result ++ "<" ++ tagName)
    | None => result ++ "<" ++ tagName
    end in
  if includes void_tags tagName then opened ++ "/>"
  else
    (match children with
     | Some ((_ :: _) as cs) => (opened ++ ">") ++ serializeHastChildren cs
     | _ => opened ++ ">"
     end) ++ "</" ++ tagName ++ ">".
Proof. reflexivity. Qed.

(** The helpers of the code against the library and the literal text. *)
Lemma join_concat (sep : string) (items : list string) :
  join sep items = String.concat sep items.
Proof.
  induction items as [|x rest IH]; [reflexivity|].
  destruct rest as [|y rest]; [reflexivity|].
  change (join sep (x :: y :: rest)) with (x ++ sep ++ join sep (y :: rest)).
  change (String.concat sep (x :: y :: rest))
    with (x ++ sep ++ String.concat sep (y :: rest)).
  now rewrite IH.
Qed.

Lemma template_string_spec (value : PropertyValue) :
  template_string value = value_spec value.
Proof.
  destruct value as [s|r|[|]| |items]; try reflexivity.
Qed.

Lemma void_tags_spec (tagName : string) :
  includes void_tags tagName = is_void_spec tagName.
Proof.
  unfold void_tags, is_void_spec. cbn [includes].
  rewrite !(String.eqb_sym tagName), orb_false_r, !orb_assoc. reflexivity.
Qed.

Lemma quoted_spec (s : string) : quoted s = String "034" (s ++ String "034" "").
Proof. reflexivity. Qed.

Lemma serialize_properties_acc (props : Properties) (result : string) :
  serialize_properties props result = result ++ attributes_spec props.
Proof.
  revert result.
  induction props as [|[key value] rest IH]; intros result; cbn [serialize_properties attributes_spec].
  - now rewrite append_nil_r.
  - rewrite IH, template_string_spec, !quoted_spec.
    destruct (key =? "className"); cbn [negb].
    + destruct value; rewrite ?join_concat, ?quoted_spec;
        repeat (rewrite ?append_assoc; cbn [append]); reflexivity.
    + repeat (rewrite ?append_assoc; cbn [append]). reflexivity.
Qed.

Lemma serialize_loop_acc (cs : list hast) (result : string) :
  Forall (fun c => forall r, serialize_child c r = r ++ serialize_node_spec c) cs ->
  fold_left (fun result child => serialize_child child result) cs result
  = result ++ serialize_spec cs.
Proof.
  intros Hall. revert result.
  induction Hall as [|c cs Hc _ IH]; intros result; unfold serialize_spec.
  - cbn. now rewrite append_nil_r.
  - cbn [fold_left map]. rewrite IH, Hc, concat_empty_cons.
    unfold serialize_spec. now rewrite append_assoc.
Qed.

Lemma serialize_child_acc (child : hast) :
  forall result, serialize_child child result = result ++ serialize_node_spec child.
Proof.
  induction child as [v | t p | t p cs IH | v | | cs IH] using hast_induction;
    intros result; try (cbn; now rewrite ?append_nil_r).
  - rewrite serialize_child_element, void_tags_spec. cbn [serialize_node_spec].
    destruct (is_void_spec t); destruct p as [props|]; cbn zeta;
      rewrite ?serialize_properties_acc, ?append_assoc; cbn [append];
      rewrite ?append_assoc; reflexivity.
  - rewrite serialize_child_element, void_tags_spec. cbn [serialize_node_spec].
    assert (Hcs : forall opened,
               match cs with
               | [] => opened ++ ">"
               | _ :: _ => (opened ++ ">") ++ serializeHastChildren cs
               end = opened ++ ">" ++ serialize_spec cs).
    { intros opened. destruct cs as [|c cs'].
      - cbn. reflexivity.
      - unfold serializeHastChildren. rewrite (serialize_loop_acc _ _ IH).
        cbn [append]. now rewrite append_assoc. }
    fold (serialize_spec cs).
    destruct (is_void_spec t); destruct p as [props|]; cbn zeta;
      rewrite ?Hcs; rewrite ?serialize_properties_acc, ?append_assoc;
      cbn [append]; rewrite ?append_assoc; reflexivity.
Qed.

Lemma serializeHastChildren_spec (children : list hast) :
  serializeHastChildren children = serialize_spec children.
Proof.
  unfold serializeHastChildren. rewrite serialize_loop_acc.
  - reflexivity.
  - apply Forall_forall. intros c _. apply serialize_child_acc.
Qed.

End Serializer.

(** ** The traversal *)

Section WalkFacts.
Context {N : Type} `{Unist N}.
Variable options : Options.
Variable step : option nat -> N -> Visit N.
Variable after : N -> N.
Variable blocks : N -> nat.

Lemma advances_refl (st : VisitState) : advances options 0 st st.
Proof. split; [lia | reflexivity]. Qed.

Lemma advances_trans (j k : nat) (st1 st2 st3 : VisitState) :
  advances options j st1 st2 -> advances options k st2 st3 ->
  advances options (j + k) st1 st3.
Proof.
  intros [C1 L1] [C2 L2]. split; [lia|].
  intros Hq. now rewrite (L2 Hq), (L1 Hq).
Qed.

(** When every child's step gives [after child], the loop gives the list
    of these, whatever the offset it starts from. *)
Lemma walk_spec (children : list N) :
  Forall (fun c => forall i st, exists st',
              step (Some i) c st = Some (after c, st')
              /\ advances options (blocks c) st st') children ->
  forall offset st, exists st',
    walk step offset children st = Some (map after children, st')
    /\ advances options (list_sum (map blocks children)) st st'.
Proof.
  induction 1 as [|c cs Hc _ IH]; intros offset st.
  - exists st. split; [reflexivity | apply advances_refl].
  - destruct (Hc offset st) as (st1 & E1 & A1).
    destruct (IH (S offset) st1) as (st2 & E2 & A2).
    exists st2. split.
    + cbn [walk map]. unfold bind. rewrite E1, E2. reflexivity.
    + cbn [map list_sum fold_right]. exact (advances_trans _ _ _ _ _ A1 A2).
Qed.
End WalkFacts.

Section Heights.

Lemma max_height_in {A : Type} (h : A -> nat) (c : A) (cs : list A) :
  In c cs -> h c <= fold_right Nat.max 0 (map h cs).
Proof.
  induction cs as [|d cs IH]; intros Hin; [destruct Hin|].
  cbn [map fold_right]. destruct Hin as [->|Hin]; [lia|].
  specialize (IH Hin). lia.
Qed.

End Heights.

(** ** The HTML pass is [rehype_tree] *)

Section RehypeRun.
Variable options : Options.
Variable file : VFile.

Lemma rehype_visitor_match (index : option nat) (node : hast) (st : VisitState) :
  is_mermaid_pre node = true ->
  rehype_visitor options file index node st
  = Some (untouched (diagram_container node),
          if logger options
          then mkState (S (mermaidCount st))
                 (logged st ++ [rehype_message file (S (mermaidCount st))])
          else mkState (S (mermaidCount st)) (logged st)).
Proof.
  destruct node as [|tagName properties [[|[|codeTag [props|] cch| | |] [|]]|]| | |];
    try discriminate.
  cbn [is_mermaid_pre]. intros Hm.
  apply andb_prop in Hm as [Hm Hcls]. apply andb_prop in Hm as [Hpre Hcode].
  cbn [rehype_visitor tagName_of properties_of children_of diagram_container].
  rewrite Hpre, Hcode. cbn [andb].
  destruct (prop_get "className" props) as [[| | | |tokens]|]; try discriminate.
  rewrite Hcls. unfold bind, count_block, logger_info, ret, rehype_message.
  destruct (logger options); reflexivity.
Qed.

Lemma rehype_visitor_other (index : option nat) (node : hast) (st : VisitState) :
  is_mermaid_pre node = false ->
  rehype_visitor options file index node st = Some (untouched node, st).
Proof.
  destruct node as [|tagName properties [[|codeNode [|]]|]| | |];
    try reflexivity.
  cbn [is_mermaid_pre rehype_visitor].
  destruct codeNode as [|codeTag [props|] cch| | |];
    cbn [tagName_of properties_of]; rewrite ?andb_false_r; try reflexivity.
  - intros Hm. destruct (tagName =? "pre"), (codeTag =? "code");
      cbn [andb] in *; try reflexivity.
    destruct (prop_get "className" props) as [[| | | |tokens]|]; try reflexivity.
    now rewrite Hm.
  - intros _. now destruct ((tagName =? "pre") && (codeTag =? "code")).
Qed.

Lemma diagram_container_children (node : hast) :
  is_mermaid_pre node = true ->
  exists t p v, diagram_container node = Element t (Some p) (Some [Text v]).
Proof.
  destruct node as [|tagName properties [[|[|codeTag [props|] cch| | |] [|]]|]| | |];
    try discriminate.
  intros _. cbn. eauto.
Qed.

Lemma mermaid_pre_height (node : hast) :
  is_mermaid_pre node = true -> 1 <= hast_height node.
Proof.
  destruct node as [|tagName properties [cs|]| | |]; try discriminate.
  intros _. cbn. lia.
Qed.

Lemma visit_rehype (fuel : nat) :
  forall (node : hast) (index : option nat) (st : VisitState),
    hast_height node < fuel ->
    exists st',
      visit fuel "element" (rehype_visitor options file) index node st
      = Some (rehype_tree node, st')
      /\ advances options (rehype_blocks node) st st'.
Proof.
  induction fuel as [|fuel IH]; intros node index st Hfuel; [lia|].
  assert (Hwalk : forall cs st0,
             (forall c, In c cs -> hast_height c < fuel) ->
             exists st',
               walk (visit fuel "element" (rehype_visitor options file)) 0 cs st0
               = Some (map rehype_tree cs, st')
               /\ advances options (list_sum (map rehype_blocks cs)) st0 st').
  { intros cs st0 Hcs.
    apply (walk_spec options _ rehype_tree rehype_blocks).
    apply Forall_forall. intros c Hin idx st1. apply IH. now apply Hcs. }
  destruct (is_mermaid_pre node) eqn:Hm.
  - (* the visitor rewrites the node; its new child is a text node *)
    pose proof (mermaid_pre_height node Hm) as Hh.
    destruct fuel as [|fuel']; [lia|].
    destruct (diagram_container_children node Hm) as (t & p & v & Hdc).
    assert (Helt : node_type node = "element")
      by (destruct node; try discriminate; reflexivity).
    exists (if logger options
            then mkState (S (mermaidCount st))
                   (logged st ++ [rehype_message file (S (mermaidCount st))])
            else mkState (S (mermaidCount st)) (logged st)).
    split.
    + cbn [visit]. rewrite Helt. cbn [String.eqb Ascii.eqb Bool.eqb].
      unfold bind at 1. rewrite (rehype_visitor_match _ _ _ Hm).
      cbn [node_after slot_after untouched]. rewrite Hdc.
      replace (rehype_tree node) with (Element t (Some p) (Some [Text v])).
      * reflexivity.
      * rewrite <- Hdc. destruct node; cbn [rehype_tree]; rewrite ?Hm;
          try reflexivity; discriminate.
    + destruct node; cbn [rehype_blocks]; rewrite ?Hm; try discriminate.
      split; destruct (logger options); cbn; try lia; congruence.
  - (* the visitor, when called, leaves the node; its children are walked *)
    assert (Hvisitor :
              (if node_type node =? "element"
               then rehype_visitor options file index node
               else ret (untouched node)) st = Some (untouched node, st)).
    { destruct (node_type node =? "element");
        [now apply rehype_visitor_other | reflexivity]. }
    destruct node as [v|t p [cs|]|v| |cs].
    + exists st. split; [reflexivity | apply advances_refl].
    + destruct (Hwalk cs st) as (st' & Ew & Aw).
      { intros c Hin. cbn [hast_height] in Hfuel.
        pose proof (max_height_in hast_height c cs Hin). lia. }
      exists st'. split.
      * cbn [visit]. unfold bind at 1. rewrite Hvisitor.
        cbn [node_after slot_after untouched node_children hast_unist children_of].
        unfold bind at 1. unfold bind at 1. rewrite Ew.
        cbn [rehype_tree]. rewrite Hm. reflexivity.
      * cbn [rehype_blocks]. rewrite Hm. exact Aw.
    + exists st. split.
      * cbn [visit]. unfold bind at 1. rewrite Hvisitor.
        cbn [rehype_tree]. rewrite Hm. reflexivity.
      * cbn [rehype_blocks]. rewrite Hm. apply advances_refl.
    + exists st. split; [reflexivity | apply advances_refl].
    + exists st. split; [reflexivity | apply advances_refl].
    + destruct (Hwalk cs st) as (st' & Ew & Aw).
      { intros c Hin. cbn [hast_height] in Hfuel.
        pose proof (max_height_in hast_height c cs Hin). lia. }
      exists st'. split.
      * cbn [visit]. unfold bind at 1. rewrite Hvisitor.
        cbn [node_after slot_after untouched node_children hast_unist children_of].
        unfold bind at 1. unfold bind at 1. rewrite Ew. reflexivity.
      * exact Aw.
Qed.

(** The transformer returns, with the tree [rehype_tree] gives, having
    counted the blocks; without a logger nothing is reported. *)
Lemma rehype_run (tree : hast) :
  exists st,
    rehypeMermaidPlugin options tree file = Some (rehype_tree tree, st)
    /\ mermaidCount st = rehype_blocks tree
    /\ (logger options = false -> logged st = []).
Proof.
  destruct (visit_rehype (S (hast_height tree)) tree None initial_state)
    as (st & Ev & Hcount & Hlog); [lia|].
  unfold rehypeMermaidPlugin, rehype_transformer.
  unfold bind at 1. rewrite Ev.
  unfold bind at 1. unfold get_count. unfold bind at 1.
  destruct (logger options) eqn:Hl.
  - destruct (Nat.ltb 0 (mermaidCount st)); cbn [andb].
    + unfold logger_info. rewrite Hl. eexists. split; [reflexivity|].
      split; [exact Hcount | discriminate].
    + exists st. split; [reflexivity|]. split; [exact Hcount | discriminate].
  - rewrite andb_false_r. exists st. split; [reflexivity|].
    split; [exact Hcount | exact Hlog].
Qed.

End RehypeRun.

(** ** The markdown pass is [remark_tree] *)

Section RemarkRun.
Variable options : Options.
Variable file : VFile.

Lemma remark_visitor_match (index : option nat) (lang : string)
    (meta : option string) (value : string) (st : VisitState) :
  (lang =? "mermaid") = true ->
  remark_visitor options file index (MdCode (Some lang) meta value) st
  = Some (mkVisited (MdCode (Some lang) meta value)
            (match index with
             | Some _ => Some (MdHtml (mermaid_container value))
             | None => None
             end),
          if logger options
          then mkState (S (mermaidCount st))
                 (logged st ++ [remark_message file (S (mermaidCount st))])
          else mkState (S (mermaidCount st)) (logged st)).
Proof.
  intros Hl. cbn [remark_visitor]. rewrite Hl.
  unfold bind, count_block, logger_info, ret, remark_message.
  destruct (logger options); reflexivity.
Qed.

Lemma remark_visitor_other (index : option nat) (node : mdast) (st : VisitState) :
  is_mermaid_code node = false ->
  remark_visitor options file index node st = Some (untouched node, st).
Proof.
  destruct node as [[lang|] m v|v|t v|t cs]; try reflexivity.
  cbn [is_mermaid_code remark_visitor]. now intros ->.
Qed.

Lemma visit_remark (fuel : nat) :
  forall (node : mdast) (index : option nat) (st : VisitState),
    mdast_height node < fuel ->
    exists st',
      visit fuel "code" (remark_visitor options file) index node st
      = Some (remark_result index node, st')
      /\ advances options (remark_blocks node) st st'.
Proof.
  induction fuel as [|fuel IH]; intros node index st Hfuel; [lia|].
  assert (Hvisitor :
            is_mermaid_code node = false ->
            (if node_type node =? "code"
             then remark_visitor options file index node
             else ret (untouched node)) st = Some (untouched node, st)).
  { intros Hm. destruct (node_type node =? "code");
      [now apply remark_visitor_other | reflexivity]. }
  destruct node as [[lang|] m v|v|t v|t cs].
  - destruct (lang =? "mermaid") eqn:Hl.
    + eexists. split.
      * cbn [visit node_type mdast_unist]. cbn [String.eqb Ascii.eqb Bool.eqb].
        unfold bind at 1. rewrite (remark_visitor_match _ _ _ _ _ Hl).
        cbn [node_after slot_after node_children mdast_unist].
        unfold bind at 1. unfold ret at 1. unfold ret.
        destruct index; cbn [remark_result remark_slot remark_tree];
          rewrite ?Hl; reflexivity.
      * cbn [remark_blocks]. rewrite Hl.
        split; destruct (logger options); cbn; try lia; congruence.
    + exists st. split.
      * cbn [visit]. unfold bind at 1. rewrite Hvisitor by (cbn; exact Hl).
        destruct index; cbn [remark_result remark_slot remark_tree];
          rewrite ?Hl; reflexivity.
      * cbn [remark_blocks]. rewrite Hl. apply advances_refl.
  - exists st. split.
    + cbn [visit]. unfold bind at 1. rewrite Hvisitor by reflexivity.
      destruct index; reflexivity.
    + apply advances_refl.
  - exists st. split; [|apply advances_refl].
    destruct index; reflexivity.
  - exists st. split.
    + cbn [visit]. unfold bind at 1. rewrite Hvisitor by reflexivity.
      destruct index; reflexivity.
    + apply advances_refl.
  - destruct (walk_spec options
                (visit fuel "code" (remark_visitor options file))
                remark_slot remark_blocks cs) with (offset := 0) (st := st)
      as (st' & Ew & Aw).
    { apply Forall_forall. intros c Hin i st1.
      apply (IH c (Some i) st1). cbn [mdast_height] in Hfuel.
      pose proof (max_height_in mdast_height c cs Hin). lia. }
    exists st'. split.
    + cbn [visit]. unfold bind at 1. rewrite Hvisitor by reflexivity.
      cbn [node_after slot_after untouched node_children mdast_unist].
      unfold bind at 1. unfold bind at 1. rewrite Ew.
      destruct index; reflexivity.
    + exact Aw.
Qed.

Lemma remark_run (tree : mdast) :
  exists st,
    remarkMermaidPlugin options tree file = Some (remark_tree tree, st)
    /\ mermaidCount st = remark_blocks tree
    /\ (logger options = false -> logged st = []).
Proof.
  destruct (visit_remark (S (mdast_height tree)) tree None initial_state)
    as (st & Ev & Hcount & Hlog); [lia|].
  unfold remarkMermaidPlugin, remark_transformer.
  unfold bind at 1. rewrite Ev.
  unfold bind at 1. unfold get_count. unfold bind at 1.
  destruct (logger options) eqn:Hl.
  - destruct (Nat.ltb 0 (mermaidCount st)); cbn [andb].
    + unfold logger_info. rewrite Hl. eexists. split; [reflexivity|].
      split; [exact Hcount | discriminate].
    + exists st. split; [reflexivity|]. split; [exact Hcount | discriminate].
  - rewrite andb_false_r. exists st. split; [reflexivity|].
    split; [exact Hcount | exact Hlog].
Qed.

End RemarkRun.

(** ** Positions in the tree after a pass *)

Section Positions.

Lemma includes_In (items : list string) (x : string) :
  includes items x = true <-> In x items.
Proof.
  induction items as [|y items IH]; cbn [includes In].
  - split; [discriminate | tauto].
  - rewrite orb_true_iff, IH, String.eqb_eq. tauto.
Qed.

Lemma map_fixed {A : Type} (f : A -> A) (l : list A) :
  Forall (fun x => f x = x) l -> map f l = l.
Proof.
  induction 1 as [|x l Hx _ IH]; cbn [map]; [reflexivity | now rewrite Hx, IH].
Qed.

Lemma list_sum_zero {A : Type} (f : A -> nat) (l : list A) :
  Forall (fun x => f x = 0) l -> list_sum (map f l) = 0.
Proof.
  induction 1 as [|x l Hx _ IH]; cbn [map list_sum fold_right];
    [reflexivity | now rewrite Hx].
Qed.

(** The node at a position the traversal reaches is, after the pass, what
    the pass makes of that node. *)
Lemma node_at_rehype (p : list nat) :
  forall n m,
    outside_diagrams n p = true ->
    node_at n p = Some m ->
    node_at (rehype_tree n) p = Some (rehype_tree m).
Proof.
  induction p as [|i q IH]; intros n m Hout Hat.
  - cbn in Hat. injection Hat as ->. reflexivity.
  - cbn [outside_diagrams] in Hout. apply andb_prop in Hout as [Hm Hout].
    apply negb_true_iff in Hm.
    cbn [node_at node_children hast_unist] in Hat |- *.
    destruct n as [v|t pr [cs|]|v| |cs]; cbn [children_of] in *; try discriminate;
      cbn [rehype_tree]; rewrite ?Hm; cbn [children_of];
      rewrite nth_error_map;
      destruct (nth_error cs i) as [c|]; try discriminate;
      cbn [option_map]; now apply IH.
Qed.

Lemma rehype_tree_fixed (n : hast) :
  hast_all (fun m => negb (is_mermaid_pre m)) n = true ->
  rehype_tree n = n /\ rehype_blocks n = 0.
Proof.
  induction n as [v | t p | t p cs IH | v | | cs IH] using hast_induction;
    cbn [hast_all]; intros Hall; apply andb_prop in Hall as [Hm Hcs];
    apply negb_true_iff in Hm; cbn [rehype_tree rehype_blocks]; rewrite ?Hm;
    try (split; reflexivity).
  - rewrite forallb_forall in Hcs. rewrite Forall_forall in IH.
    rewrite map_fixed, list_sum_zero; [split; reflexivity | |];
      apply Forall_forall; intros c Hin; now apply IH, Hcs.
  - rewrite forallb_forall in Hcs. rewrite Forall_forall in IH.
    rewrite map_fixed, list_sum_zero; [split; reflexivity | |];
      apply Forall_forall; intros c Hin; now apply IH, Hcs.
Qed.


(** The markdown pass, position by position. *)
Lemma node_at_remark_slot (p : list nat) :
  forall n m,
    node_at n p = Some m ->
    node_at (remark_slot n) p = Some (remark_slot m).
Proof.
  induction p as [|i q IH]; intros n m Hat.
  - cbn in Hat. injection Hat as ->. reflexivity.
  - cbn [node_at node_children mdast_unist] in Hat.
    destruct n as [l mt v|v|t v|t cs]; try discriminate.
    cbn [remark_slot node_at node_children mdast_unist].
    rewrite nth_error_map.
    destruct (nth_error cs i) as [c|]; try discriminate.
    cbn [option_map]. now apply IH.
Qed.

Lemma node_at_remark_tree (i : nat) (q : list nat) (n m : mdast) :
  node_at n (i :: q) = Some m ->
  node_at (remark_tree n) (i :: q) = Some (remark_slot m).
Proof.
  intros Hat. cbn [node_at node_children mdast_unist] in Hat.
  destruct n as [l mt v|v|t v|t cs]; try discriminate.
  cbn [remark_tree node_at node_children mdast_unist].
  rewrite nth_error_map.
  destruct (nth_error cs i) as [c|]; try discriminate.
  cbn [option_map]. now apply node_at_remark_slot.
Qed.

Lemma remark_slot_fixed (n : mdast) :
  mdast_all (fun m => negb (is_mermaid_code m)) n = true ->
  remark_slot n = n.
Proof.
  induction n as [l mt v|v|t v|t cs IH] using mdast_induction;
    cbn [mdast_all]; intros Hall; apply andb_prop in Hall as [Hm Hcs];
    apply negb_true_iff in Hm; try reflexivity.
  - destruct l as [lang|]; [|reflexivity].
    cbn [is_mermaid_code] in Hm. cbn [remark_slot]. now rewrite Hm.
  - cbn [remark_slot]. rewrite forallb_forall in Hcs. rewrite Forall_forall in IH.
    rewrite map_fixed; [reflexivity|].
    apply Forall_forall; intros c Hin; now apply IH, Hcs.
Qed.

Lemma remark_tree_slot (n : mdast) :
  is_mermaid_code n = false -> remark_tree n = remark_slot n.
Proof.
  destruct n as [[lang|] mt v|v|t v|t cs]; try reflexivity.
  cbn [is_mermaid_code remark_tree remark_slot]. now intros ->.
Qed.

(** Properties other than the one assigned are kept, in place. *)
Lemma prop_get_set_same (key : string) (v : PropertyValue) (props : Properties) :
  prop_get key (prop_set key v props) = Some v.
Proof.
  induction props as [|[k w] rest IH]; cbn [prop_set prop_get].
  - now rewrite String.eqb_refl.
  - destruct (k =? key) eqn:Hk; cbn [prop_get]; rewrite Hk; [reflexivity | exact IH].
Qed.

Lemma prop_get_set_other (key other : string) (v : PropertyValue)
    (props : Properties) :
  other <> key ->
  prop_get other (prop_set key v props) = prop_get other props.
Proof.
  intros Hne. induction props as [|[k w] rest IH]; cbn [prop_set prop_get].
  - destruct (String.eqb_spec key other); [congruence | reflexivity].
  - destruct (String.eqb_spec k key) as [->|Hk]; cbn [prop_get].
    + destruct (String.eqb_spec key other); [congruence | reflexivity].
    + destruct (k =? other); [reflexivity | exact IH].
Qed.

Lemma prop_set_others (key : string) (v : PropertyValue) (props : Properties) :
  filter (fun kv => negb (fst kv =? key)) (prop_set key v props)
  = filter (fun kv => negb (fst kv =? key)) props.
Proof.
  induction props as [|[k w] rest IH]; cbn [prop_set filter fst].
  - now rewrite String.eqb_refl.
  - destruct (k =? key) eqn:Hk; cbn [filter fst]; rewrite Hk; cbn [negb];
      [reflexivity | now rewrite IH].
Qed.

End Positions.

(** ** The escaper: the statements of the specification *)

Section EscaperClaims.






End EscaperClaims.

(** C3.  [escapeHtml] is the single left-to-right pass the specification
    describes: it equals the concatenation, in order, of one image per
    character of the input, the image of [&], [<], [>], the double quote and
    the single quote being [&amp;], [&lt;], [&gt;], [&quot;] and [&#39;] and
    the image of any other character the character itself.  The images are
    never read again (the escaper distributes over concatenation), the empty
    string maps to the empty string, and the function is total. *)
Theorem escapeHtml_single_pass :
  (forall text, escapeHtml text = escapeHtml_spec text)
  /\ (forall c rest, escapeHtml (String c rest) = entity_spec c ++ escapeHtml rest)
  /\ (forall a b, escapeHtml (a ++ b) = escapeHtml a ++ escapeHtml b)
  /\ escapeHtml "&" = "&amp;"
  /\ escapeHtml "<" = "&lt;"
  /\ escapeHtml ">" = "&gt;"
  /\ escapeHtml (String dquote "") = "&quot;"
  /\ escapeHtml "'" = "&#39;"
  /\ (forall c, is_special c = false ->
        escapeHtml (String c "") = String c "")
  /\ escapeHtml "" = "".
Proof.
  repeat split; try reflexivity.
  - intros text. induction text as [|c text IH]; [reflexivity|].
    rewrite escapeHtml_cons, IH. reflexivity.
  - apply escapeHtml_cons.
  - apply escapeHtml_append.
  - intros c Hc. rewrite escapeHtml_cons, (entity_spec_plain c Hc). reflexivity.
Qed.

(** C4.  For every string, its escaped form holds no [<], [>], double quote
    or single quote, unescaping it gives the string back, and hence two
    strings with the same escaped form are equal. *)
Theorem escapeHtml_round_trip (s : string) :
  (~ occurs "<" (escapeHtml s)
   /\ ~ occurs ">" (escapeHtml s)
   /\ ~ occurs dquote (escapeHtml s)
   /\ ~ occurs "'" (escapeHtml s))
  /\ unescapeHtml (escapeHtml s) = s
  /\ (forall s', escapeHtml s' = escapeHtml s -> s' = s).
Proof.
  split; [|split].
  - repeat split; apply escapeHtml_clean; tauto.
  - apply unescape_escape.
  - intros s' Heq.
    rewrite <- (unescape_escape s'), Heq. apply unescape_escape.
Qed.

(** C5 (as amended).  [serializeHastChildren] returns, for every list of
    nodes, the concatenation in order of what each node contributes, every
    value copied without escaping: a text node its value unchanged; an
    element ["<" ++ tagName], then its properties in stored order, each as
    [ key="value"] with the value as a template literal prints it (a string
    as it is, a number by its digits, [true], [false], [null], an array
    joined by commas), the [className] property as [ class="..."] with its
    tokens joined by single spaces when it is an array and as nothing when
    it is not, then ["/>"] if the tag is one of [br], [hr], [img], [input],
    [meta], [link], and otherwise [">"], the serialization of its children
    and the closing tag; any other node contributes nothing.  The statement
    names none of the helpers of the code: the tags, the quote character,
    the joins and the printed values are written out. *)
Theorem serializeHastChildren_reproduces :
  (forall children, serializeHastChildren children = serialize_spec children)
  /\ serializeHastChildren [] = ""
  /\ (forall child rest,
        serializeHastChildren (child :: rest)
        = serializeHastChildren [child] ++ serializeHastChildren rest)
  /\ (forall value, serializeHastChildren [Text value] = value)
  /\ (forall tagName properties children,
        serializeHastChildren [Element tagName properties children]
        = "<" ++ tagName
          ++ match properties with
             | Some props => attributes_spec props
             | None => ""
             end
          ++ (if (tagName =? "br") || (tagName =? "hr") || (tagName =? "img")
                 || (tagName =? "input") || (tagName =? "meta")
                 || (tagName =? "link")
              then "/>"
              else ">"
                   ++ serializeHastChildren
                        (match children with Some cs => cs | None => [] end)
                   ++ "</" ++ tagName ++ ">"))
  /\ attributes_spec [] = ""
  /\ (forall key value rest,
        key <> "className" ->
        attributes_spec ((key, value) :: rest)
        = " " ++ key ++ "="
          ++ String "034"
               (match value with
                | PVString s => s
                | PVNumber rendering => rendering
                | PVBool true => "true"
                | PVBool false => "false"
                | PVNull => "null"
                | PVArray items => String.concat "," items
                end)
          ++ String "034" (attributes_spec rest))
  /\ (forall items rest,
        attributes_spec (("className", PVArray items) :: rest)
        = " class=" ++ String "034" (String.concat " " items)
          ++ String "034" (attributes_spec rest))
  /\ (forall value rest,
        (forall items, value <> PVArray items) ->
        attributes_spec (("className", value) :: rest) = attributes_spec rest)
  /\ (forall n,
        tagName_of n = None -> (forall value, n <> Text value) ->
        serializeHastChildren [n] = "").
Proof.
  repeat split.
  - apply serializeHastChildren_spec.
  - intros child rest. rewrite !serializeHastChildren_spec.
    unfold serialize_spec. cbn [map].
    now rewrite !concat_empty_cons, append_assoc.
  - intros tagName properties children. rewrite !serializeHastChildren_spec.
    unfold serialize_spec. cbn [map String.concat serialize_node_spec].
    unfold is_void_spec. destruct children; reflexivity.
  - intros key value rest Hkey. cbn [attributes_spec].
    destruct (String.eqb_spec key "className"); [contradiction|].
    unfold value_spec. repeat (rewrite ?append_assoc; cbn [append]). reflexivity.
  - intros items rest. cbn [attributes_spec String.eqb Ascii.eqb Bool.eqb].
    repeat (rewrite ?append_assoc; cbn [append]). reflexivity.
  - intros value rest Hval. cbn [attributes_spec String.eqb Ascii.eqb Bool.eqb].
    destruct value; try reflexivity. now destruct (Hval items).
  - intros n Htag Htext. destruct n; try reflexivity.
    + now destruct (Htext value).
    + discriminate Htag.
Qed.

(** The string does not reproduce the children as valid HTML would: nothing
    is escaped and some nodes are left out, so different children give the
    same string.  A text node holding [<b>x</b>] serializes like the element
    [b] around [x]; an attribute value holding a double quote serializes like
    two attributes; a comment serializes like no node at all; and a text
    holding [a < b & c] comes out with its [<] and [&] raw. *)
Lemma serialization_not_verbatim :
  (serializeHastChildren [Text "<b>x</b>"]
   = serializeHastChildren [Element "b" None (Some [Text "x"])]
   /\ [Text "<b>x</b>"] <> [Element "b" None (Some [Text "x"])])
  /\ (serializeHastChildren
        [Element "i" (Some [("id", PVString ("1" ++ String "034" " title="
                                             ++ String "034" "2"))]) None]
      = serializeHastChildren
          [Element "i" (Some [("id", PVString "1"); ("title", PVString "2")]) None]
      /\ [("id", PVString ("1" ++ String "034" " title=" ++ String "034" "2"))]
         <> [("id", PVString "1"); ("title", PVString "2")])
  /\ (serializeHastChildren [Comment "note"] = serializeHastChildren []
      /\ [Comment "note"] <> [])
  /\ serializeHastChildren [Text "a < b & c"] = "a < b & c".
Proof.
  repeat split; try reflexivity; discriminate.
Qed.

(** A void element with a number, a flag and a list among its attributes. *)
Example serialize_attribute_values :
  serializeHastChildren
    [Element "img"
       (Some [("width", PVNumber "1e+21"); ("hidden", PVBool true);
              ("className", PVArray ["a"; "b"]); ("rel", PVArray ["x"; "y"])])
       (Some [Text "dropped"])]
  = "<img width=" ++ String "034" "1e+21" ++ String "034" " hidden="
    ++ String "034" "true" ++ String "034" " class=" ++ String "034" "a b"
    ++ String "034" " rel=" ++ String "034" "x,y" ++ String "034" "/>".
Proof. reflexivity. Qed.

(** ** The HTML pass: the statements of the specification *)

Section RehypeClaims.

Lemma mermaid_pre_match (props : option Properties) (codeProps : Properties)
    (codeChildren : option (list hast)) (tokens : list string) :
  prop_get "className" codeProps = Some (PVArray tokens) ->
  In "language-mermaid" tokens ->
  is_mermaid_pre
    (Element "pre" props (Some [Element "code" (Some codeProps) codeChildren]))
  = true.
Proof.
  intros Hcls Hin. cbn [is_mermaid_pre String.eqb Ascii.eqb Bool.eqb andb].
  rewrite Hcls. now apply includes_In.
Qed.

Lemma not_a_diagram_unmatched (n : hast) :
  not_a_diagram n -> is_mermaid_pre n = false.
Proof.
  intros [props c1 c2 cs | props c Hc | props codeProps cch Hcls].
  - cbn [is_mermaid_pre]. now destruct c1 as [|? [?|] ?| | |].
  - destruct c as [|codeTag [ps|] cch| | |]; try reflexivity.
    cbn [is_mermaid_pre]. cbn [tagName_of] in Hc.
    destruct (String.eqb_spec codeTag "code") as [->|_]; [congruence|].
    now rewrite andb_false_r.
  - destruct codeProps as [ps|]; [|reflexivity].
    cbn [is_mermaid_pre String.eqb Ascii.eqb Bool.eqb andb].
    cbn [class_list] in Hcls.
    destruct (prop_get "className" ps) as [[| | | |tokens]|]; try reflexivity.
    destruct (includes tokens "language-mermaid") eqn:Hinc; [|reflexivity].
    apply includes_In in Hinc. now destruct (Hcls tokens eq_refl).
Qed.

Lemma rehype_tree_match (n : hast) :
  is_mermaid_pre n = true -> rehype_tree n = diagram_container n.
Proof.
  intros Hm. destruct n; cbn [rehype_tree]; rewrite ?Hm; try reflexivity;
    discriminate Hm.
Qed.

Lemma rehype_tree_children (t : string) (props : option Properties)
    (cs : list hast) :
  is_mermaid_pre (Element t props (Some cs)) = false ->
  rehype_tree (Element t props (Some cs)) = Element t props (Some (map rehype_tree cs)).
Proof. intros Hm. cbn [rehype_tree]. now rewrite Hm. Qed.

End RehypeClaims.

(** Markup inside a diagram block comes out as text: the serializer writes
    the tags back and the escaper escapes them. *)
Example rehype_literal_markup :
  exists st,
    rehypeMermaidPlugin (mkOptions false)
      (code_block None
         [Text "A["; Element "u" (Some []) (Some [Text "B"]); Text "] ";
          Element "br" (Some []) (Some [])])
      (mkFile None)
    = Some (Element "pre" (Some [("className", PVArray ["mermaid"])])
              (Some [Text "A[&lt;u&gt;B&lt;/u&gt;] &lt;br/&gt;"]), st).
Proof. eexists. vm_compute. reflexivity. Qed.

(** C1 (as amended).  For every [pre] element of the tree that the traversal
    reaches (no element above it is itself a matching [pre]) and that has
    exactly one child, an element [code] whose [className] is an array
    holding the token [language-mermaid], the transformer returns a tree in
    which, at the same position, the [pre] has its [className] replaced by
    the one-element list [mermaid] and has as only child a text node whose
    value is [escapeHtml] of the serialization of the children of the
    [code] element. *)
Theorem mermaid_pre_rewritten (options : Options) (file : VFile) (tree : hast)
    (p : list nat) (props : option Properties) (codeProps : Properties)
    (codeChildren : option (list hast)) (tokens : list string) :
  node_at tree p
  = Some (Element "pre" props (Some [Element "code" (Some codeProps) codeChildren])) ->
  prop_get "className" codeProps = Some (PVArray tokens) ->
  In "language-mermaid" tokens ->
  outside_diagrams tree p = true ->
  exists tree' st props',
    rehypeMermaidPlugin options tree file = Some (tree', st)
    /\ node_at tree' p
       = Some (Element "pre" (Some props')
                 (Some [Text (escapeHtml
                                (serializeHastChildren
                                   (match codeChildren with
                                    | Some cs => cs
                                    | None => []
                                    end)))]))
    /\ props' = prop_set "className" (PVArray ["mermaid"])
                  (match props with Some ps => ps | None => [] end)
    /\ prop_get "className" props' = Some (PVArray ["mermaid"]).
Proof.
  intros Hat Hcls Hin Hout.
  destruct (rehype_run options file tree) as (st & Hrun & _).
  exists (rehype_tree tree), st. eexists. split; [exact Hrun|].
  split; [|split; [reflexivity | apply prop_get_set_same]].
  rewrite (node_at_rehype p tree _ Hout Hat).
  rewrite rehype_tree_match by (eapply mermaid_pre_match; eassumption).
  reflexivity.
Qed.

(** The claim at [<pre><code class="language-mermaid">A --> B</code></pre>],
    second child of a root. *)
Lemma mermaid_pre_rewritten_witness :
  exists tree' st props',
    rehypeMermaidPlugin (mkOptions true)
      (Root [Text "intro"; code_block None [Text "A --> B"]]) (mkFile None)
    = Some (tree', st)
    /\ node_at tree' [1]
       = Some (Element "pre" (Some props') (Some [Text (escapeHtml "A --> B")]))
    /\ props' = prop_set "className" (PVArray ["mermaid"]) []
    /\ prop_get "className" props' = Some (PVArray ["mermaid"]).
Proof.
  exact (mermaid_pre_rewritten (mkOptions true) (mkFile None)
           (Root [Text "intro"; code_block None [Text "A --> B"]]) [1]
           None language_mermaid (Some [Text "A --> B"]) ["language-mermaid"]
           eq_refl eq_refl (or_introl eq_refl) eq_refl).
Defined.

(** A matching [pre] inside the [code] of another matching [pre] is not
    rewritten: the outer one is, and the inner one becomes part of its text,
    so no node is left at the inner position. *)
Lemma nested_mermaid_pre_serialized :
  node_at nested_diagram [0; 1] = Some inner_diagram
  /\ inner_diagram
     = Element "pre" None
         (Some [Element "code" (Some language_mermaid) (Some [Text "b"])])
  /\ prop_get "className" language_mermaid = Some (PVArray ["language-mermaid"])
  /\ In "language-mermaid" ["language-mermaid"]
  /\ exists tree' st,
       rehypeMermaidPlugin (mkOptions false) nested_diagram (mkFile None)
       = Some (tree', st)
       /\ node_at tree' [0; 1] = None
       /\ node_at tree' [0; 1]
          <> Some (Element "pre"
                     (Some (prop_set "className" (PVArray ["mermaid"]) []))
                     (Some [Text (escapeHtml (serializeHastChildren [Text "b"]))])).
Proof.
  repeat split; try reflexivity; [now left|].
  eexists _, _. split; [vm_compute; reflexivity|].
  split; [reflexivity | discriminate].
Qed.

(** C7 (as amended).  For every [pre] element of the tree that the traversal
    reaches and that has more than one child, or a single child that is not
    a [code] element, or a [code] child whose [className] is absent, is not
    an array or lacks the token [language-mermaid], the transformer leaves
    the element in place with its tag and its properties unchanged and with
    as many children; each child is what the transformer makes of that child
    on its own, and the entire subtree is unchanged when no element below
    is itself a matching [pre]. *)
Theorem unmatched_pre_kept (options : Options) (file : VFile) (tree : hast)
    (p : list nat) (props : option Properties) (cs : list hast) :
  node_at tree p = Some (Element "pre" props (Some cs)) ->
  not_a_diagram (Element "pre" props (Some cs)) ->
  outside_diagrams tree p = true ->
  exists tree' st cs',
    rehypeMermaidPlugin options tree file = Some (tree', st)
    /\ node_at tree' p = Some (Element "pre" props (Some cs'))
    /\ length cs' = length cs
    /\ (forall i c, nth_error cs i = Some c ->
          exists c' st_c,
            rehypeMermaidPlugin options c file = Some (c', st_c)
            /\ nth_error cs' i = Some c')
    /\ (hast_all (fun m => negb (is_mermaid_pre m)) (Element "pre" props (Some cs)) = true ->
        cs' = cs).
Proof.
  intros Hat Hnot Hout.
  pose proof (not_a_diagram_unmatched _ Hnot) as Hm.
  destruct (rehype_run options file tree) as (st & Hrun & _).
  exists (rehype_tree tree), st, (map rehype_tree cs).
  split; [exact Hrun|]. split; [|split; [|split]].
  - rewrite (node_at_rehype p tree _ Hout Hat).
    now rewrite rehype_tree_children.
  - apply length_map.
  - intros i c Hc.
    destruct (rehype_run options file c) as (st_c & Hrun_c & _).
    exists (rehype_tree c), st_c. split; [exact Hrun_c|].
    now apply map_nth_error.
  - intros Hall. apply rehype_tree_fixed in Hall as [Hfix _].
    rewrite rehype_tree_children in Hfix by exact Hm. congruence.
Qed.

(** The claim at a [pre] with two children, one of them a diagram block
    that is rewritten in place. *)
Lemma unmatched_pre_kept_witness :
  exists tree' st cs',
    rehypeMermaidPlugin (mkOptions false)
      (Root [Element "pre" None (Some [Text "t"; code_block None [Text "x"]])])
      (mkFile None)
    = Some (tree', st)
    /\ node_at tree' [0] = Some (Element "pre" None (Some cs'))
    /\ length cs' = 2
    /\ (forall i c, nth_error [Text "t"; code_block None [Text "x"]] i = Some c ->
          exists c' st_c,
            rehypeMermaidPlugin (mkOptions false) c (mkFile None) = Some (c', st_c)
            /\ nth_error cs' i = Some c')
    /\ (hast_all (fun m => negb (is_mermaid_pre m))
          (Element "pre" None (Some [Text "t"; code_block None [Text "x"]])) = true ->
        cs' = [Text "t"; code_block None [Text "x"]]).
Proof.
  exact (unmatched_pre_kept (mkOptions false) (mkFile None)
           (Root [Element "pre" None (Some [Text "t"; code_block None [Text "x"]])])
           [0] None [Text "t"; code_block None [Text "x"]]
           eq_refl (several_children None _ _ _) eq_refl).
Defined.

(** A [pre] whose single child is a [div], not a [code], is not left with
    its subtree unchanged when a diagram block sits below it. *)
Lemma unmatched_pre_subtree_changes :
  not_a_diagram wrapped_diagram
  /\ node_at wrapped_diagram [] = Some wrapped_diagram
  /\ exists tree' st,
       rehypeMermaidPlugin (mkOptions false) wrapped_diagram (mkFile None)
       = Some (tree', st)
       /\ node_at tree' [] <> Some wrapped_diagram.
Proof.
  split; [|split; [reflexivity|]].
  - apply child_not_code. discriminate.
  - eexists _, _. split; [vm_compute; reflexivity|]. discriminate.
Qed.

(** C10.  For every [pre] element that the transformer matches and rewrites,
    the rewritten element has the same tag, its [className] is [mermaid], and
    every other property is kept with its value and in its place: looking up
    any other key gives what it gave before, and the entries other than
    [className] are the same list. *)
Theorem rewritten_pre_keeps_properties (options : Options) (file : VFile)
    (tree : hast) (p : list nat) (tagName : string) (props : option Properties)
    (children : option (list hast)) :
  node_at tree p = Some (Element tagName props children) ->
  outside_diagrams tree p = true ->
  is_mermaid_pre (Element tagName props children) = true ->
  exists tree' st props' children',
    rehypeMermaidPlugin options tree file = Some (tree', st)
    /\ node_at tree' p = Some (Element tagName (Some props') children')
    /\ prop_get "className" props' = Some (PVArray ["mermaid"])
    /\ (forall key, key <> "className" ->
          prop_get key props'
          = prop_get key (match props with Some ps => ps | None => [] end))
    /\ filter (fun kv => negb (fst kv =? "className")) props'
       = filter (fun kv => negb (fst kv =? "className"))
           (match props with Some ps => ps | None => [] end).
Proof.
  intros Hat Hout Hm.
  destruct (rehype_run options file tree) as (st & Hrun & _).
  assert (Hshape : exists codeNode, children = Some [codeNode]).
  { destruct children as [[|c [|]]|]; try discriminate Hm; [eauto|].
    cbn [is_mermaid_pre] in Hm. destruct c as [|? [?|] ?| | |]; discriminate Hm. }
  destruct Hshape as (codeNode & ->).
  exists (rehype_tree tree), st. eexists _, _.
  split; [exact Hrun|]. split; [|split; [|split]].
  - rewrite (node_at_rehype p tree _ Hout Hat), (rehype_tree_match _ Hm).
    reflexivity.
  - apply prop_get_set_same.
  - intros key Hkey. now apply prop_get_set_other.
  - apply prop_set_others.
Qed.

(** The claim at a diagram block that carries an [id] and a [data-] attribute. *)
Lemma rewritten_pre_keeps_properties_witness :
  exists tree' st props' children',
    rehypeMermaidPlugin (mkOptions false)
      (code_block (Some [("id", PVString "d1"); ("className", PVArray ["x"]);
                         ("dataKind", PVString "flow")]) [Text "A"])
      (mkFile None)
    = Some (tree', st)
    /\ node_at tree' [] = Some (Element "pre" (Some props') children')
    /\ prop_get "className" props' = Some (PVArray ["mermaid"])
    /\ (forall key, key <> "className" ->
          prop_get key props'
          = prop_get key [("id", PVString "d1"); ("className", PVArray ["x"]);
                          ("dataKind", PVString "flow")])
    /\ filter (fun kv => negb (fst kv =? "className")) props'
       = filter (fun kv => negb (fst kv =? "className"))
           [("id", PVString "d1"); ("className", PVArray ["x"]);
            ("dataKind", PVString "flow")].
Proof.
  exact (rewritten_pre_keeps_properties (mkOptions false) (mkFile None)
           (code_block (Some [("id", PVString "d1"); ("className", PVArray ["x"]);
                              ("dataKind", PVString "flow")]) [Text "A"])
           [] "pre" _ _ eq_refl eq_refl eq_refl).
Defined.



(** ** The markdown pass: the statements of the specification *)

(** C2.  The transformer returns, and in the tree it returns: every code
    block with a parent whose language tag is [mermaid], whatever its body
    (the empty string too), has been replaced at the same index among its
    parent's children by a raw HTML node whose value is
    [<pre class="mermaid">], the escaped body, [</pre>]; every code block
    with any other language tag, or none, is where it was, unaltered; and a
    tree with no matching node is returned unchanged. *)
Theorem remark_replaces_mermaid_code (options : Options) (file : VFile)
    (tree : mdast) :
  exists tree' st,
    remarkMermaidPlugin options tree file = Some (tree', st)
    /\ (forall i q meta value,
          node_at tree (i :: q) = Some (MdCode (Some "mermaid") meta value) ->
          node_at tree' (i :: q)
          = Some (MdHtml ("<pre class=" ++ String dquote "mermaid"
                          ++ String dquote ">" ++ escapeHtml value ++ "</pre>")))
    /\ (forall i q meta,
          node_at tree (i :: q) = Some (MdCode (Some "mermaid") meta "") ->
          node_at tree' (i :: q)
          = Some (MdHtml ("<pre class=" ++ String dquote "mermaid"
                          ++ String dquote "></pre>")))
    /\ (forall p lang meta value,
          lang <> Some "mermaid" ->
          node_at tree p = Some (MdCode lang meta value) ->
          node_at tree' p = Some (MdCode lang meta value))
    /\ (mdast_all (fun n => negb (is_mermaid_code n)) tree = true -> tree' = tree).
Proof.
  destruct (remark_run options file tree) as (st & Hrun & _).
  exists (remark_tree tree), st. split; [exact Hrun|].
  split; [|split; [|split]].
  - intros i q meta value Hat.
    now rewrite (node_at_remark_tree i q tree _ Hat).
  - intros i q meta Hat.
    now rewrite (node_at_remark_tree i q tree _ Hat).
  - intros p lang meta value Hlang Hat.
    assert (Hslot : remark_slot (MdCode lang meta value) = MdCode lang meta value).
    { destruct lang as [l|]; [|reflexivity]. cbn [remark_slot].
      destruct (String.eqb_spec l "mermaid") as [->|_]; [congruence | reflexivity]. }
    destruct p as [|i q].
    + cbn in Hat. injection Hat as ->. reflexivity.
    + rewrite (node_at_remark_tree i q tree _ Hat). now rewrite Hslot.
  - intros Hall.
    rewrite remark_tree_slot.
    + now apply remark_slot_fixed.
    + destruct tree; cbn [mdast_all] in Hall; apply andb_prop in Hall as [Hm _];
        now apply negb_true_iff in Hm.
Qed.

(** The transformer on a document with a diagram block, an empty diagram
    block inside a quote, and a block in another language. *)
Lemma remark_replaces_mermaid_code_example :
  exists st,
    remarkMermaidPlugin (mkOptions false)
      (MdParent "root"
         [MdCode (Some "mermaid") None "A --> B";
          MdParent "blockquote" [MdCode (Some "mermaid") None ""];
          MdCode (Some "js") None "x < y"])
      (mkFile None)
    = Some (MdParent "root"
              [MdHtml ("<pre class=" ++ String dquote "mermaid"
                       ++ String dquote ">A --&gt; B</pre>");
               MdParent "blockquote"
                 [MdHtml ("<pre class=" ++ String dquote "mermaid"
                          ++ String dquote "></pre>")];
               MdCode (Some "js") None "x < y"], st).
Proof. eexists. vm_compute. reflexivity. Qed.

(** A code block that is the whole tree has no parent to be replaced in:
    the guard on [parent] leaves it, though it is counted. *)
Lemma remark_root_code_kept (options : Options) (file : VFile)
    (meta : option string) (value : string) :
  exists st,
    remarkMermaidPlugin options (MdCode (Some "mermaid") meta value) file
    = Some (MdCode (Some "mermaid") meta value, st)
    /\ mermaidCount st = 1.
Proof.
  destruct (remark_run options file (MdCode (Some "mermaid") meta value))
    as (st & Hrun & Hcount & _).
  exists st. split; [exact Hrun | exact Hcount].
Qed.

(** ** Escaping once, and the logger *)


(** C9.  For every tree, the tree either transformer returns is the same
    whatever the options say about a logger, and so is the number of blocks
    counted; without a logger nothing is reported. *)
Theorem logger_does_not_affect_tree (file : VFile) (options1 options2 : Options)
    (markdown : mdast) (html : hast) :
  (exists tree' st1 st2,
      remarkMermaidPlugin options1 markdown file = Some (tree', st1)
      /\ remarkMermaidPlugin options2 markdown file = Some (tree', st2)
      /\ mermaidCount st1 = mermaidCount st2
      /\ (logger options1 = false -> logged st1 = []))
  /\ (exists tree' st1 st2,
        rehypeMermaidPlugin options1 html file = Some (tree', st1)
        /\ rehypeMermaidPlugin options2 html file = Some (tree', st2)
        /\ mermaidCount st1 = mermaidCount st2
        /\ (logger options1 = false -> logged st1 = [])).
Proof.
  split.
  - destruct (remark_run options1 file markdown) as (st1 & Hrun1 & Hc1 & Hl1).
    destruct (remark_run options2 file markdown) as (st2 & Hrun2 & Hc2 & _).
    exists (remark_tree markdown), st1, st2. repeat split; try assumption.
    congruence.
  - destruct (rehype_run options1 file html) as (st1 & Hrun1 & Hc1 & Hl1).
    destruct (rehype_run options2 file html) as (st2 & Hrun2 & Hc2 & _).
    exists (rehype_tree html), st1, st2. repeat split; try assumption.
    congruence.
Qed.

(** With and without a logger on a page with one diagram block: the same
    tree, two reports against none. *)
Lemma logger_does_not_affect_tree_example :
  exists tree',
    rehypeMermaidPlugin (mkOptions true)
      (Root [code_block None [Text "A & B"]]) (mkFile (Some "post.md"))
    = Some (tree',
            mkState 1
              ["Rehype transformed mermaid block #1 in post.md";
               "Rehype total mermaid blocks transformed: 1"])
    /\ rehypeMermaidPlugin (mkOptions false)
         (Root [code_block None [Text "A & B"]]) (mkFile (Some "post.md"))
       = Some (tree', mkState 1 []).
Proof. eexists. split; vm_compute; reflexivity. Qed.

(** * Further properties of the code *)

(** ** escapeHtml: sizes and fixed points *)

Section EscaperSizes.

Lemma length_append (a b : string) :
  String.length (a ++ b) = String.length a + String.length b.
Proof. induction a as [|c a IH]; cbn; [reflexivity | now rewrite IH]. Qed.

Lemma is_special_cases (c : ascii) :
  is_special c = true ->
  c = "&"%char \/ c = "<"%char \/ c = ">"%char \/ c = dquote \/ c = "'"%char.
Proof.
  unfold is_special, html_special; cbn [in_class].
  destruct (Ascii.eqb_spec c "&"); [tauto|].
  destruct (Ascii.eqb_spec c "<"); [tauto|].
  destruct (Ascii.eqb_spec c ">"); [tauto|].
  destruct (Ascii.eqb_spec c dquote); [tauto|].
  destruct (Ascii.eqb_spec c "'"); [tauto|discriminate].
Qed.

Lemma entity_length (c : ascii) :
  (is_special c = false /\ String.length (entity_spec c) = 1)
  \/ (is_special c = true /\ 4 <= String.length (entity_spec c) <= 6).
Proof.
  destruct (is_special c) eqn:Hc.
  - right. split; [reflexivity|].
    destruct (is_special_cases c Hc) as [->|[->|[->|[->| ->]]]]; cbn; lia.
  - left. split; [reflexivity|]. now rewrite entity_spec_plain.
Qed.

Lemma escapeHtml_plain (s : string) :
  has_special s = false -> escapeHtml s = s.
Proof.
  induction s as [|c s IH]; [reflexivity|].
  cbn [has_special]. intros H. apply orb_false_elim in H as [Hc Hs].
  rewrite escapeHtml_cons, (entity_spec_plain c Hc), (IH Hs). reflexivity.
Qed.

Lemma escapeHtml_grows (s : string) :
  has_special s = true -> String.length s < String.length (escapeHtml s).
Proof.
  induction s as [|c s IH]; [discriminate|].
  cbn [has_special]. intros H. rewrite escapeHtml_cons, length_append.
  cbn [String.length].
  assert (Hle : String.length s <= String.length (escapeHtml s)).
  { destruct (has_special s) eqn:Hs; [specialize (IH eq_refl); lia|].
    now rewrite escapeHtml_plain. }
  destruct (entity_length c) as [[Hc Hl]|[Hc Hl]].
  - rewrite Hc in H. cbn [orb] in H. specialize (IH H). lia.
  - lia.
Qed.

Lemma has_special_append (a b : string) :
  has_special (a ++ b) = has_special a || has_special b.
Proof.
  induction a as [|c a IH]; [reflexivity|].
  cbn [append has_special]. now rewrite IH, orb_assoc.
Qed.

Lemma has_special_entity (c : ascii) :
  has_special (entity_spec c) = is_special c.
Proof.
  destruct (is_special c) eqn:Hc.
  - destruct (is_special_cases c Hc) as [->|[->|[->|[->| ->]]]]; reflexivity.
  - rewrite (entity_spec_plain c Hc). cbn [has_special]. now rewrite Hc.
Qed.

Lemma has_special_escapeHtml (s : string) :
  has_special (escapeHtml s) = has_special s.
Proof.
  induction s as [|c s IH]; [reflexivity|].
  rewrite escapeHtml_cons, has_special_append, has_special_entity, IH.
  reflexivity.
Qed.

End EscaperSizes.

(** X1.  [escapeHtml] returns its argument unchanged exactly when the
    argument holds none of the five characters [&], [<], [>], double quote,
    single quote. *)
Theorem escapeHtml_fixed_iff_plain (s : string) :
  escapeHtml s = s <-> has_special s = false.
Proof.
  split; [|apply escapeHtml_plain].
  intros Heq. destruct (has_special s) eqn:Hs; [|reflexivity].
  pose proof (escapeHtml_grows s Hs) as Hlt. rewrite Heq in Hlt. lia.
Qed.

(** X2.  The escaped text is never shorter than the text and at most six
    times as long (the longest entity, [&quot;], has six characters). *)
Theorem escapeHtml_length_bounds (s : string) :
  String.length s <= String.length (escapeHtml s) <= 6 * String.length s.
Proof.
  induction s as [|c s IH]; [cbn; lia|].
  rewrite escapeHtml_cons, length_append. cbn [String.length].
  destruct (entity_length c) as [[_ Hl]|[_ Hl]]; lia.
Qed.

(** X3.  Escaping is not idempotent: escaping a second time leaves the
    escaped text as it is only for a text that needed no escaping; any text
    with a special character is changed again by a second pass. *)
Theorem escapeHtml_twice_iff_plain (s : string) :
  escapeHtml (escapeHtml s) = escapeHtml s <-> has_special s = false.
Proof.
  split.
  - intros Heq. destruct (has_special s) eqn:Hs; [|reflexivity].
    assert (Hs' : has_special (escapeHtml s) = true)
      by now rewrite has_special_escapeHtml.
    pose proof (escapeHtml_grows _ Hs') as Hlt. rewrite Heq in Hlt. lia.
  - intros Hs. now rewrite !(escapeHtml_plain s Hs).
Qed.

(** ** serializeHastChildren: composition *)

(** X4.  Serializing a list of nodes is serializing its parts in order and
    concatenating: the serializer distributes over the concatenation of
    child lists, and a list of text nodes gives the concatenation of their
    values. *)
Theorem serializeHastChildren_app :
  (forall front back,
      serializeHastChildren (front ++ back)
      = serializeHastChildren front ++ serializeHastChildren back)
  /\ (forall values,
        serializeHastChildren (map Text values) = String.concat "" values).
Proof.
  split.
  - intros front back. rewrite !serializeHastChildren_spec. unfold serialize_spec.
    induction front as [|c front IH]; [reflexivity|].
    cbn [app map]. rewrite !concat_empty_cons, IH. now rewrite append_assoc.
  - intros values. rewrite serializeHastChildren_spec. unfold serialize_spec.
    rewrite map_map. cbn [serialize_node_spec]. now rewrite map_id.
Qed.

(** ** The traversal state, exactly *)

Section ExactState.
Variable options : Options.
Variable message : nat -> string.

Lemma block_reports_add (from a b : nat) :
  block_reports message options from (a + b)
  = (block_reports message options from a
     ++ block_reports message options (from + a) b)%list.
Proof.
  unfold block_reports. destruct (logger options); [|reflexivity].
  rewrite seq_app, map_app. reflexivity.
Qed.

Lemma after_blocks_zero (st : VisitState) :
  after_blocks message options 0 st = st.
Proof.
  unfold after_blocks, block_reports. destruct st as [count log]; cbn.
  destruct (logger options); cbn; now rewrite Nat.add_0_r, app_nil_r.
Qed.

Lemma after_blocks_add (a b : nat) (st : VisitState) :
  after_blocks message options b (after_blocks message options a st)
  = after_blocks message options (a + b) st.
Proof.
  unfold after_blocks. cbn [mermaidCount logged].
  rewrite block_reports_add, app_assoc, Nat.add_assoc. reflexivity.
Qed.

Lemma after_blocks_one (st : VisitState) :
  after_blocks message options 1 st
  = if logger options
    then mkState (S (mermaidCount st)) (logged st ++ [message (S (mermaidCount st))])
    else mkState (S (mermaidCount st)) (logged st).
Proof.
  unfold after_blocks, block_reports. rewrite Nat.add_1_r.
  destruct (logger options); cbn; [reflexivity | now rewrite app_nil_r].
Qed.

Lemma walk_state {N : Type} `{Unist N} (step : option nat -> N -> Visit N)
    (after : N -> N) (blocks : N -> nat) (children : list N) :
  Forall (fun c => forall i st,
              step (Some i) c st
              = Some (after c, after_blocks message options (blocks c) st))
    children ->
  forall offset st,
    walk step offset children st
    = Some (map after children,
            after_blocks message options (list_sum (map blocks children)) st).
Proof.
  induction 1 as [|c cs Hc _ IH]; intros offset st.
  - cbn. now rewrite after_blocks_zero.
  - cbn [walk map list_sum fold_right]. unfold bind.
    rewrite Hc, IH, after_blocks_add. reflexivity.
Qed.

End ExactState.

Section RehypeState.
Variable options : Options.
Variable file : VFile.

Lemma visit_rehype_state (fuel : nat) :
  forall (node : hast) (index : option nat) (st : VisitState),
    hast_height node < fuel ->
    visit fuel "element" (rehype_visitor options file) index node st
    = Some (rehype_tree node,
            after_blocks (rehype_message file) options (rehype_blocks node) st).
Proof.
  induction fuel as [|fuel IH]; intros node index st Hfuel; [lia|].
  assert (Hwalk : forall cs st0,
             (forall c, In c cs -> hast_height c < fuel) ->
             walk (visit fuel "element" (rehype_visitor options file)) 0 cs st0
             = Some (map rehype_tree cs,
                     after_blocks (rehype_message file) options
                       (list_sum (map rehype_blocks cs)) st0)).
  { intros cs st0 Hcs.
    apply (walk_state options _ _ rehype_tree rehype_blocks).
    apply Forall_forall. intros c Hin i st1. apply IH. now apply Hcs. }
  destruct (is_mermaid_pre node) eqn:Hm.
  - pose proof (mermaid_pre_height node Hm) as Hh.
    destruct fuel as [|fuel']; [lia|].
    destruct (diagram_container_children node Hm) as (t & p & v & Hdc).
    assert (Helt : node_type node = "element")
      by (destruct node; try discriminate; reflexivity).
    assert (Hb : rehype_blocks node = 1)
      by (destruct node; cbn [rehype_blocks]; rewrite ?Hm; try reflexivity;
          discriminate).
    rewrite Hb, after_blocks_one, (rehype_tree_match _ Hm).
    cbn [visit]. rewrite Helt. cbn [String.eqb Ascii.eqb Bool.eqb].
    unfold bind at 1. rewrite (rehype_visitor_match _ _ _ _ _ Hm).
    cbn [node_after slot_after untouched]. rewrite Hdc. reflexivity.
  - assert (Hvisitor :
              (if node_type node =? "element"
               then rehype_visitor options file index node
               else ret (untouched node)) st = Some (untouched node, st)).
    { destruct (node_type node =? "element");
        [now apply rehype_visitor_other | reflexivity]. }
    destruct node as [v|t p [cs|]|v| |cs];
      try (cbn [rehype_blocks rehype_tree]; rewrite ?Hm, after_blocks_zero;
           cbn [visit]; unfold bind at 1; rewrite ?Hvisitor; reflexivity).
    + cbn [rehype_blocks rehype_tree]. rewrite Hm.
      cbn [visit]. unfold bind at 1. rewrite Hvisitor.
      cbn [node_after slot_after untouched node_children hast_unist children_of].
      unfold bind at 1. unfold bind at 1. rewrite Hwalk; [reflexivity|].
      intros c Hin. cbn [hast_height] in Hfuel.
      pose proof (max_height_in hast_height c cs Hin). lia.
    + cbn [rehype_blocks rehype_tree].
      cbn [visit]. unfold bind at 1. rewrite Hvisitor.
      cbn [node_after slot_after untouched node_children hast_unist children_of].
      unfold bind at 1. unfold bind at 1. rewrite Hwalk; [reflexivity|].
      intros c Hin. cbn [hast_height] in Hfuel.
      pose proof (max_height_in hast_height c cs Hin). lia.
Qed.

Lemma rehype_run_state (tree : hast) :
  rehypeMermaidPlugin options tree file
  = Some (rehype_tree tree,
          mkState (rehype_blocks tree)
            (block_reports (rehype_message file) options 0 (rehype_blocks tree)
             ++ closing_report "Rehype total mermaid blocks transformed: "
                  options (rehype_blocks tree))).
Proof.
  unfold rehypeMermaidPlugin, rehype_transformer.
  unfold bind at 1. rewrite visit_rehype_state by lia.
  unfold after_blocks, initial_state, closing_report.
  cbn [mermaidCount logged app Nat.add].
  unfold bind at 1. unfold get_count. cbn [mermaidCount]. unfold bind at 1.
  destruct (Nat.ltb 0 (rehype_blocks tree) && logger options) eqn:Hc.
  - apply andb_prop in Hc as [_ Hl]. unfold logger_info. rewrite Hl.
    reflexivity.
  - unfold ret. now rewrite app_nil_r.
Qed.

End RehypeState.

(** ** The HTML pass: what is left after it *)

Section RehypeAfter.

Lemma is_mermaid_pre_tag (n : hast) :
  is_mermaid_pre n = true -> tagName_of n = Some "pre".
Proof.
  destruct n as [|tagName properties [[|[|codeTag [ps|] cch| | |] [|]]|]| | |];
    try discriminate.
  cbn [is_mermaid_pre tagName_of]. intros Hm.
  apply andb_prop in Hm as [Hm _]. apply andb_prop in Hm as [Hpre _].
  apply String.eqb_eq in Hpre. now subst.
Qed.

Lemma several_children_unmatched (t : string) (p : option Properties)
    (c1 c2 : hast) (cs : list hast) :
  is_mermaid_pre (Element t p (Some (c1 :: c2 :: cs))) = false.
Proof. cbn [is_mermaid_pre]. now destruct c1 as [|? [?|] ?| | |]. Qed.

(** The test reads the tag and the properties of the only child, nothing
    below. *)
Lemma is_mermaid_pre_child (t : string) (p : option Properties) (c c' : hast) :
  tagName_of c' = tagName_of c -> properties_of c' = properties_of c ->
  is_mermaid_pre (Element t p (Some [c'])) = is_mermaid_pre (Element t p (Some [c])).
Proof.
  destruct c as [|tc pc cc| | |], c' as [|tc' pc' cc'| | |];
    cbn [tagName_of properties_of]; try discriminate; try reflexivity.
  intros [= ->] ->. reflexivity.
Qed.

Lemma rehype_tree_tag (n : hast) : tagName_of (rehype_tree n) = tagName_of n.
Proof.
  destruct (is_mermaid_pre n) eqn:Hm.
  - rewrite (rehype_tree_match _ Hm).
    destruct n as [|tagName properties [[|c [|]]|]| | |]; try discriminate;
      reflexivity.
  - destruct n as [|t p [cs|]| | |]; cbn [rehype_tree]; rewrite ?Hm; reflexivity.
Qed.

Lemma rehype_tree_properties (n : hast) :
  is_mermaid_pre n = false -> properties_of (rehype_tree n) = properties_of n.
Proof.
  intros Hm.
  destruct n as [|t p [cs|]| | |]; cbn [rehype_tree]; rewrite ?Hm; reflexivity.
Qed.

Lemma unmatched_after_children (t : string) (p : option Properties)
    (cs : list hast) :
  is_mermaid_pre (Element t p (Some cs)) = false ->
  is_mermaid_pre (Element t p (Some (map rehype_tree cs))) = false.
Proof.
  destruct cs as [|c [|c2 cs]]; cbn [map]; intros Hm.
  - reflexivity.
  - destruct (is_mermaid_pre c) eqn:Hc.
    + pose proof (is_mermaid_pre_tag c Hc) as Htag.
      rewrite <- rehype_tree_tag in Htag.
      destruct (rehype_tree c) as [|tc [pc|] cc| | |]; try reflexivity.
      cbn [tagName_of] in Htag. injection Htag as ->.
      cbn [is_mermaid_pre String.eqb Ascii.eqb Bool.eqb]. now rewrite andb_false_r.
    + rewrite (is_mermaid_pre_child t p c (rehype_tree c)); [exact Hm | |].
      * apply rehype_tree_tag.
      * now apply rehype_tree_properties.
  - apply several_children_unmatched.
Qed.

Lemma diagram_container_unmatched (n : hast) :
  is_mermaid_pre n = true ->
  hast_all (fun m => negb (is_mermaid_pre m)) (diagram_container n) = true.
Proof.
  intros Hm. destruct (diagram_container_children n Hm) as (t & p & v & ->).
  reflexivity.
Qed.

Lemma rehype_tree_clean (n : hast) :
  hast_all (fun m => negb (is_mermaid_pre m)) (rehype_tree n) = true.
Proof.
  induction n as [v | t p | t p cs IH | v | | cs IH] using hast_induction;
    try reflexivity.
  - destruct (is_mermaid_pre (Element t p (Some cs))) eqn:Hm.
    + rewrite (rehype_tree_match _ Hm). now apply diagram_container_unmatched.
    + rewrite (rehype_tree_children _ _ _ Hm). cbn [hast_all].
      rewrite (unmatched_after_children _ _ _ Hm). cbn [negb andb].
      apply forallb_forall. intros c' Hin. apply in_map_iff in Hin as (c & <- & Hin).
      rewrite Forall_forall in IH. now apply IH.
  - cbn [rehype_tree is_mermaid_pre hast_all negb andb].
    apply forallb_forall. intros c' Hin. apply in_map_iff in Hin as (c & <- & Hin).
    rewrite Forall_forall in IH. now apply IH.
Qed.

Lemma map_fixed_inv {A : Type} (f : A -> A) (l : list A) :
  map f l = l -> Forall (fun x => f x = x) l.
Proof.
  induction l as [|x l IH]; cbn [map]; intros Heq; [constructor|].
  injection Heq as Hx Hl. constructor; [exact Hx | now apply IH].
Qed.

Lemma list_sum_zero_inv {A : Type} (f : A -> nat) (l : list A) :
  list_sum (map f l) = 0 -> Forall (fun x => f x = 0) l.
Proof.
  unfold list_sum.
  induction l as [|x l IH]; cbn [map fold_right]; intros Hsum; [constructor|].
  constructor; [lia | apply IH; lia].
Qed.

Lemma diagram_container_changes (n : hast) :
  is_mermaid_pre n = true -> diagram_container n <> n.
Proof.
  destruct n as [|tagName properties [[|[|codeTag [ps|] cch| | |] [|]]|]| | |];
    discriminate.
Qed.

Lemma rehype_tree_unchanged (n : hast) :
  rehype_tree n = n <-> rehype_blocks n = 0.
Proof.
  induction n as [v | t p | t p cs IH | v | | cs IH] using hast_induction;
    try (split; reflexivity).
  - destruct (is_mermaid_pre (Element t p (Some cs))) eqn:Hm.
    + rewrite (rehype_tree_match _ Hm). cbn [rehype_blocks]. rewrite Hm.
      split; [|discriminate].
      intros Heq. now destruct (diagram_container_changes _ Hm).
    + rewrite (rehype_tree_children _ _ _ Hm). cbn [rehype_blocks]. rewrite Hm.
      rewrite Forall_forall in IH. split.
      * intros [= Heq]. apply list_sum_zero, Forall_forall. intros c Hin.
        apply IH; [exact Hin|].
        apply map_fixed_inv in Heq. rewrite Forall_forall in Heq. now apply Heq.
      * intros Hsum. f_equal. f_equal. apply map_fixed, Forall_forall.
        intros c Hin. apply IH; [exact Hin|].
        apply list_sum_zero_inv in Hsum. rewrite Forall_forall in Hsum.
        now apply Hsum.
  - cbn [rehype_tree rehype_blocks is_mermaid_pre].
    rewrite Forall_forall in IH. split.
    + intros [= Heq]. apply list_sum_zero, Forall_forall. intros c Hin.
      apply IH; [exact Hin|].
      apply map_fixed_inv in Heq. rewrite Forall_forall in Heq. now apply Heq.
    + intros Hsum. f_equal. apply map_fixed, Forall_forall.
      intros c Hin. apply IH; [exact Hin|].
      apply list_sum_zero_inv in Hsum. rewrite Forall_forall in Hsum.
      now apply Hsum.
Qed.

End RehypeAfter.

(** X5.  After the HTML pass no element of the tree is a [pre] whose only
    child is a [code] element with the class token [language-mermaid]: no
    diagram block is left over, at any depth. *)
Theorem rehype_leaves_no_block (options : Options) (file : VFile) (tree : hast) :
  exists tree' st,
    rehypeMermaidPlugin options tree file = Some (tree', st)
    /\ hast_all (fun m => negb (is_mermaid_pre m)) tree' = true.
Proof.
  exists (rehype_tree tree). eexists. split; [apply rehype_run_state|].
  apply rehype_tree_clean.
Qed.

(** X6.  The HTML pass is idempotent: run on its own output it returns that
    output unchanged and counts no block. *)
Theorem rehype_idempotent (options : Options) (file : VFile) (tree : hast) :
  exists tree' st st',
    rehypeMermaidPlugin options tree file = Some (tree', st)
    /\ rehypeMermaidPlugin options tree' file = Some (tree', st')
    /\ mermaidCount st' = 0.
Proof.
  destruct (rehype_tree_fixed _ (rehype_tree_clean tree)) as [Hfix Hzero].
  exists (rehype_tree tree). eexists _, _.
  split; [apply rehype_run_state|].
  rewrite (rehype_run_state options file (rehype_tree tree)), Hfix, Hzero.
  split; reflexivity.
Qed.

(** X7.  The HTML pass returns the tree it was given exactly when it counted
    no block: a count of zero means nothing was touched, and every counted
    block is a change to the tree. *)
Theorem rehype_unchanged_iff_no_block (options : Options) (file : VFile)
    (tree : hast) :
  exists tree' st,
    rehypeMermaidPlugin options tree file = Some (tree', st)
    /\ (tree' = tree <-> mermaidCount st = 0).
Proof.
  exists (rehype_tree tree). eexists. split; [apply rehype_run_state|].
  cbn [mermaidCount]. apply rehype_tree_unchanged.
Qed.

(** X8.  What the HTML pass tells a logger: for [n] counted blocks, the [n]
    reports ["Rehype transformed mermaid block #k in <file>"] for [k] from 1
    to [n] in that order, followed by the total when [n] is not zero; with
    no block, or with no logger, nothing at all. *)
Theorem rehype_reports (options : Options) (file : VFile) (tree : hast) :
  exists tree' n,
    rehypeMermaidPlugin options tree file
    = Some (tree',
            mkState n
              (if logger options
               then app
                      (map (fun k => "Rehype transformed mermaid block #"
                                     ++ nat_to_string k ++ " in " ++ file_label file)
                         (seq 1 n))
                      (if Nat.ltb 0 n
                       then ["Rehype total mermaid blocks transformed: "
                             ++ nat_to_string n]
                       else [])
               else [])).
Proof.
  exists (rehype_tree tree), (rehype_blocks tree).
  rewrite rehype_run_state. unfold block_reports, closing_report.
  destruct (logger options); [|now rewrite andb_false_r].
  rewrite andb_true_r. reflexivity.
Qed.

Section RehypeFrame.

Lemma not_occurs_count (c : ascii) (s : string) :
  ~ occurs c s -> count_char c s = 0.
Proof.
  induction s as [|d s IH]; [reflexivity|].
  cbn [occurs count_char]. intros Hno.
  destruct (Ascii.eqb_spec d c) as [->|_]; [tauto|].
  apply IH. tauto.
Qed.

Lemma rehype_tree_unmatched_shape (m : hast) :
  is_mermaid_pre m = false ->
  node_type (rehype_tree m) = node_type m
  /\ tagName_of (rehype_tree m) = tagName_of m
  /\ properties_of (rehype_tree m) = properties_of m
  /\ option_map (@length hast) (children_of (rehype_tree m))
     = option_map (@length hast) (children_of m)
  /\ (children_of m = None -> rehype_tree m = m).
Proof.
  intros Hm.
  destruct m as [|t p [cs|]| | |cs]; cbn [rehype_tree]; rewrite ?Hm;
    cbn [children_of option_map]; rewrite ?length_map;
    repeat split; try reflexivity; discriminate.
Qed.

End RehypeFrame.

(** X9.  For a diagram block the traversal reaches, the text the HTML pass
    puts in the container holds no [<], [>], double quote or single quote,
    and unescaping it once gives back the serialization of what the [code]
    element held, markup included. *)
Theorem container_text_round_trip (options : Options) (file : VFile)
    (tree : hast) (p : list nat) (props : option Properties)
    (codeProps : Properties) (codeChildren : option (list hast))
    (tokens : list string) :
  node_at tree p
  = Some (Element "pre" props (Some [Element "code" (Some codeProps) codeChildren])) ->
  prop_get "className" codeProps = Some (PVArray tokens) ->
  In "language-mermaid" tokens ->
  outside_diagrams tree p = true ->
  exists tree' st props' text,
    rehypeMermaidPlugin options tree file = Some (tree', st)
    /\ node_at tree' p = Some (Element "pre" props' (Some [Text text]))
    /\ unescapeHtml text
       = serializeHastChildren
           (match codeChildren with Some cs => cs | None => [] end)
    /\ ~ occurs "<" text /\ ~ occurs ">" text
    /\ ~ occurs dquote text /\ ~ occurs "'" text.
Proof.
  intros Hat Hcls Hin Hout.
  exists (rehype_tree tree). eexists _, _, _.
  split; [apply rehype_run_state|]. split.
  - rewrite (node_at_rehype p tree _ Hout Hat).
    rewrite rehype_tree_match by (eapply mermaid_pre_match; eassumption).
    reflexivity.
  - split; [apply unescape_escape|].
    repeat split; apply escapeHtml_clean; tauto.
Qed.

(** The property at a block whose code holds underlined text and a line
    break. *)
Lemma container_text_round_trip_witness :
  exists tree' st props' text,
    rehypeMermaidPlugin (mkOptions false)
      (Root [code_block None
               [Text "A["; Element "u" None (Some [Text "B & C"]); Text "]";
                Element "br" None None]])
      (mkFile None)
    = Some (tree', st)
    /\ node_at tree' [0] = Some (Element "pre" props' (Some [Text text]))
    /\ unescapeHtml text
       = serializeHastChildren
           [Text "A["; Element "u" None (Some [Text "B & C"]); Text "]";
            Element "br" None None]
    /\ ~ occurs "<" text /\ ~ occurs ">" text
    /\ ~ occurs dquote text /\ ~ occurs "'" text.
Proof.
  exact (container_text_round_trip (mkOptions false) (mkFile None)
           (Root [code_block None
                    [Text "A["; Element "u" None (Some [Text "B & C"]); Text "]";
                     Element "br" None None]])
           [0] None language_mermaid _ ["language-mermaid"]
           eq_refl eq_refl (or_introl eq_refl) eq_refl).
Defined.

(** X10.  Outside diagram blocks the HTML pass changes nothing but what is
    below: a node the traversal reaches that is not a matching [pre] keeps
    its type, its tag, its properties and the number of its children, and a
    node without children (text, comment, doctype, an element with no child
    list) is returned as it was. *)
Theorem rehype_frame (options : Options) (file : VFile) (tree : hast)
    (p : list nat) (m : hast) :
  node_at tree p = Some m ->
  outside_diagrams tree p = true ->
  is_mermaid_pre m = false ->
  exists tree' st m',
    rehypeMermaidPlugin options tree file = Some (tree', st)
    /\ node_at tree' p = Some m'
    /\ node_type m' = node_type m
    /\ tagName_of m' = tagName_of m
    /\ properties_of m' = properties_of m
    /\ option_map (@length hast) (children_of m')
       = option_map (@length hast) (children_of m)
    /\ (children_of m = None -> m' = m).
Proof.
  intros Hat Hout Hm.
  exists (rehype_tree tree). eexists. exists (rehype_tree m).
  split; [apply rehype_run_state|].
  split; [apply (node_at_rehype p tree _ Hout Hat)|].
  now apply rehype_tree_unmatched_shape.
Qed.

(** The property at a paragraph that stands beside a diagram block. *)
Lemma rehype_frame_witness :
  exists tree' st m',
    rehypeMermaidPlugin (mkOptions false)
      (Root [Element "p" (Some [("id", PVString "a")]) (Some [Text "t"; Comment "c"]);
             code_block None [Text "x"]])
      (mkFile None)
    = Some (tree', st)
    /\ node_at tree' [0] = Some m'
    /\ node_type m' = "element"
    /\ tagName_of m' = Some "p"
    /\ properties_of m' = Some [("id", PVString "a")]
    /\ option_map (@length hast) (children_of m') = Some 2
    /\ (Some [Text "t"; Comment "c"] = None ->
        m' = Element "p" (Some [("id", PVString "a")]) (Some [Text "t"; Comment "c"])).
Proof.
  exact (rehype_frame (mkOptions false) (mkFile None)
           (Root [Element "p" (Some [("id", PVString "a")])
                    (Some [Text "t"; Comment "c"]);
                  code_block None [Text "x"]])
           [0] _ eq_refl eq_refl eq_refl).
Defined.

(** ** The markdown pass: what is left after it *)

Section RemarkState.
Variable options : Options.
Variable file : VFile.

Lemma visit_remark_state (fuel : nat) :
  forall (node : mdast) (index : option nat) (st : VisitState),
    mdast_height node < fuel ->
    visit fuel "code" (remark_visitor options file) index node st
    = Some (remark_result index node,
            after_blocks (remark_message file) options (remark_blocks node) st).
Proof.
  induction fuel as [|fuel IH]; intros node index st Hfuel; [lia|].
  assert (Hvisitor :
            is_mermaid_code node = false ->
            (if node_type node =? "code"
             then remark_visitor options file index node
             else ret (untouched node)) st = Some (untouched node, st)).
  { intros Hm. destruct (node_type node =? "code");
      [now apply remark_visitor_other | reflexivity]. }
  destruct node as [[lang|] m v|v|t v|t cs].
  - cbn [remark_blocks]. destruct (lang =? "mermaid") eqn:Hl.
    + rewrite after_blocks_one.
      cbn [visit node_type mdast_unist]. cbn [String.eqb Ascii.eqb Bool.eqb].
      unfold bind at 1. rewrite (remark_visitor_match _ _ _ _ _ _ _ Hl).
      cbn [node_after slot_after node_children mdast_unist].
      unfold bind at 1. unfold ret at 1. unfold ret.
      destruct index; cbn [remark_result remark_slot remark_tree];
        rewrite ?Hl; reflexivity.
    + rewrite after_blocks_zero.
      cbn [visit]. unfold bind at 1. rewrite Hvisitor by (cbn; exact Hl).
      destruct index; cbn [remark_result remark_slot remark_tree];
        rewrite ?Hl; reflexivity.
  - cbn [remark_blocks]. rewrite after_blocks_zero.
    cbn [visit]. unfold bind at 1. rewrite Hvisitor by reflexivity.
    destruct index; reflexivity.
  - cbn [remark_blocks]. rewrite after_blocks_zero. destruct index; reflexivity.
  - cbn [remark_blocks]. rewrite after_blocks_zero.
    cbn [visit]. unfold bind at 1. rewrite Hvisitor by reflexivity.
    destruct index; reflexivity.
  - cbn [remark_blocks].
    cbn [visit]. unfold bind at 1. rewrite Hvisitor by reflexivity.
    cbn [node_after slot_after untouched node_children mdast_unist].
    unfold bind at 1. unfold bind at 1.
    rewrite (walk_state options (remark_message file) _ remark_slot remark_blocks).
    + destruct index; reflexivity.
    + apply Forall_forall. intros c Hin i st1.
      apply (IH c (Some i) st1). cbn [mdast_height] in Hfuel.
      pose proof (max_height_in mdast_height c cs Hin). lia.
Qed.

Lemma remark_run_state (tree : mdast) :
  remarkMermaidPlugin options tree file
  = Some (remark_tree tree,
          mkState (remark_blocks tree)
            (block_reports (remark_message file) options 0 (remark_blocks tree)
             ++ closing_report "Remark total mermaid blocks transformed: "
                  options (remark_blocks tree))).
Proof.
  unfold remarkMermaidPlugin, remark_transformer.
  unfold bind at 1. rewrite visit_remark_state by lia.
  unfold after_blocks, initial_state, closing_report, remark_result.
  cbn [mermaidCount logged app Nat.add].
  unfold bind at 1. unfold get_count. cbn [mermaidCount]. unfold bind at 1.
  destruct (Nat.ltb 0 (remark_blocks tree) && logger options) eqn:Hc.
  - apply andb_prop in Hc as [_ Hl]. unfold logger_info. rewrite Hl.
    reflexivity.
  - unfold ret. now rewrite app_nil_r.
Qed.

End RemarkState.

Section RemarkAfter.

Lemma remark_slot_not_code (m : mdast) : is_mermaid_code (remark_slot m) = false.
Proof.
  destruct m as [[lang|] mt v|v|t v|t cs]; try reflexivity.
  cbn [remark_slot]. destruct (lang =? "mermaid") eqn:Hl; [reflexivity|].
  cbn [is_mermaid_code]. exact Hl.
Qed.

Lemma remark_slot_clean (n : mdast) :
  mdast_all (fun m => negb (is_mermaid_code m)) (remark_slot n) = true.
Proof.
  induction n as [l mt v|v|t v|t cs IH] using mdast_induction; try reflexivity.
  - destruct l as [lang|]; [|reflexivity]. cbn [remark_slot].
    destruct (lang =? "mermaid") eqn:Hl; [reflexivity|].
    cbn [mdast_all is_mermaid_code]. now rewrite Hl.
  - cbn [remark_slot mdast_all is_mermaid_code negb andb].
    apply forallb_forall. intros c' Hin. apply in_map_iff in Hin as (c & <- & Hin).
    rewrite Forall_forall in IH. now apply IH.
Qed.

Lemma remark_blocks_clean (n : mdast) :
  mdast_all (fun m => negb (is_mermaid_code m)) n = true -> remark_blocks n = 0.
Proof.
  induction n as [l mt v|v|t v|t cs IH] using mdast_induction;
    cbn [mdast_all]; intros Hall; apply andb_prop in Hall as [Hm Hcs];
    apply negb_true_iff in Hm; try reflexivity.
  - destruct l as [lang|]; [|reflexivity].
    cbn [is_mermaid_code] in Hm. cbn [remark_blocks]. now rewrite Hm.
  - cbn [remark_blocks]. rewrite forallb_forall in Hcs. rewrite Forall_forall in IH.
    apply list_sum_zero, Forall_forall. intros c Hin. now apply IH, Hcs.
Qed.

Lemma remark_tree_clean (n : mdast) :
  is_mermaid_code n = false ->
  mdast_all (fun m => negb (is_mermaid_code m)) (remark_tree n) = true.
Proof.
  intros Hm. rewrite (remark_tree_slot n Hm). apply remark_slot_clean.
Qed.

Lemma remark_tree_idempotent (n : mdast) :
  remark_tree (remark_tree n) = remark_tree n.
Proof.
  destruct n as [l mt v|v|t v|t cs]; try reflexivity.
  cbn [remark_tree]. f_equal. rewrite map_map.
  apply map_ext. intros c. apply remark_slot_fixed, remark_slot_clean.
Qed.

Lemma remark_slot_unchanged (n : mdast) :
  remark_slot n = n <-> remark_blocks n = 0.
Proof.
  induction n as [l mt v|v|t v|t cs IH] using mdast_induction;
    try (split; reflexivity).
  - destruct l as [lang|]; [|split; reflexivity].
    cbn [remark_slot remark_blocks].
    destruct (lang =? "mermaid"); split; try reflexivity; discriminate.
  - cbn [remark_slot remark_blocks]. rewrite Forall_forall in IH. split.
    + intros [= Heq]. apply list_sum_zero, Forall_forall. intros c Hin.
      apply IH; [exact Hin|].
      apply map_fixed_inv in Heq. rewrite Forall_forall in Heq. now apply Heq.
    + intros Hsum. f_equal. apply map_fixed, Forall_forall.
      intros c Hin. apply IH; [exact Hin|].
      apply list_sum_zero_inv in Hsum. rewrite Forall_forall in Hsum.
      now apply Hsum.
Qed.

Lemma node_at_remark_slot_inv (p : list nat) :
  forall n m',
    node_at (remark_slot n) p = Some m' ->
    exists m, node_at n p = Some m /\ m' = remark_slot m.
Proof.
  induction p as [|i q IH]; intros n m' Hat.
  - cbn in Hat. injection Hat as <-. exists n. split; reflexivity.
  - destruct n as [[lang|] mt v|v|t v|t cs]; try discriminate Hat.
    + cbn [remark_slot] in Hat. destruct (lang =? "mermaid"); discriminate Hat.
    + cbn [remark_slot node_at node_children mdast_unist] in Hat |- *.
      rewrite nth_error_map in Hat.
      destruct (nth_error cs i) as [c|]; [|discriminate Hat].
      cbn [option_map] in Hat. now apply IH.
Qed.

Lemma node_at_remark_tree_inv (i : nat) (q : list nat) (n m' : mdast) :
  node_at (remark_tree n) (i :: q) = Some m' ->
  exists m, node_at n (i :: q) = Some m /\ m' = remark_slot m.
Proof.
  destruct n as [l mt v|v|t v|t cs]; try discriminate.
  cbn [remark_tree node_at node_children mdast_unist].
  rewrite nth_error_map.
  destruct (nth_error cs i) as [c|]; [|discriminate].
  cbn [option_map]. apply node_at_remark_slot_inv.
Qed.

Lemma remark_slot_shape (m : mdast) :
  is_mermaid_code m = false ->
  node_type (remark_slot m) = node_type m
  /\ (node_children m = None -> remark_slot m = m).
Proof.
  destruct m as [[lang|] mt v|v|t v|t cs]; cbn [is_mermaid_code remark_slot];
    intros Hm; rewrite ?Hm; split; try reflexivity; discriminate.
Qed.

Lemma mermaid_container_delimiters (value : string) :
  count_char "<" (mermaid_container value) = 2
  /\ count_char ">" (mermaid_container value) = 2
  /\ count_char dquote (mermaid_container value) = 2
  /\ count_char "'" (mermaid_container value) = 0.
Proof.
  unfold mermaid_container, quoted.
  repeat split; rewrite !count_char_append;
    rewrite (not_occurs_count _ (escapeHtml value))
      by (apply escapeHtml_clean; tauto);
    reflexivity.
Qed.

End RemarkAfter.

(** X11.  After the markdown pass no node below the root is a code block
    tagged [mermaid]: every diagram block that has a parent is gone, at any
    depth. *)
Theorem remark_leaves_no_block (options : Options) (file : VFile) (tree : mdast) :
  exists tree' st,
    remarkMermaidPlugin options tree file = Some (tree', st)
    /\ (forall i q m, node_at tree' (i :: q) = Some m -> is_mermaid_code m = false).
Proof.
  exists (remark_tree tree). eexists. split; [apply remark_run_state|].
  intros i q m' Hat.
  apply node_at_remark_tree_inv in Hat as (m & _ & ->).
  apply remark_slot_not_code.
Qed.

(** X12.  The markdown pass is idempotent: run on its own output it returns
    that output unchanged, and it counts no block then unless the tree is
    itself a lone [mermaid] code block (which has no parent to be replaced
    in and is counted again). *)
Theorem remark_idempotent (options : Options) (file : VFile) (tree : mdast) :
  exists tree' st st',
    remarkMermaidPlugin options tree file = Some (tree', st)
    /\ remarkMermaidPlugin options tree' file = Some (tree', st')
    /\ mermaidCount st' = (if is_mermaid_code tree then 1 else 0).
Proof.
  exists (remark_tree tree). eexists _, _.
  split; [apply remark_run_state|].
  rewrite (remark_run_state options file (remark_tree tree)), remark_tree_idempotent.
  split; [reflexivity|]. cbn [mermaidCount].
  destruct (is_mermaid_code tree) eqn:Hm.
  - destruct tree as [[lang|] mt v|v|t v|t cs]; try discriminate Hm.
    cbn [is_mermaid_code] in Hm. cbn [remark_tree remark_blocks]. now rewrite Hm.
  - apply remark_blocks_clean, remark_tree_clean, Hm.
Qed.

(** X13.  When the tree is not itself a lone [mermaid] code block, the
    markdown pass returns the tree it was given exactly when it counted no
    block; a lone [mermaid] code block is returned as it was and counted
    once. *)
Theorem remark_unchanged_iff_no_block (options : Options) (file : VFile)
    (tree : mdast) :
  exists tree' st,
    remarkMermaidPlugin options tree file = Some (tree', st)
    /\ (is_mermaid_code tree = false -> (tree' = tree <-> mermaidCount st = 0))
    /\ (is_mermaid_code tree = true -> tree' = tree /\ mermaidCount st = 1).
Proof.
  exists (remark_tree tree). eexists. split; [apply remark_run_state|].
  cbn [mermaidCount]. split.
  - intros Hm. rewrite (remark_tree_slot tree Hm). apply remark_slot_unchanged.
  - intros Hm. destruct tree as [[lang|] mt v|v|t v|t cs]; try discriminate Hm.
    cbn [is_mermaid_code] in Hm. cbn [remark_tree remark_blocks]. now rewrite Hm.
Qed.

(** X14.  The markdown pass keeps the shape of the tree: a position holds a
    node after the pass exactly when it did before, a node that is not a
    [mermaid] code block keeps its type, and a node without children that is
    not a [mermaid] code block (text, raw HTML, a code block in another
    language) is returned as it was. *)
Theorem remark_frame (options : Options) (file : VFile) (tree : mdast) :
  exists tree' st,
    remarkMermaidPlugin options tree file = Some (tree', st)
    /\ (forall p, node_at tree' p = None <-> node_at tree p = None)
    /\ (forall p m,
          node_at tree p = Some m -> is_mermaid_code m = false ->
          exists m',
            node_at tree' p = Some m'
            /\ node_type m' = node_type m
            /\ (node_children m = None -> m' = m)).
Proof.
  exists (remark_tree tree). eexists. split; [apply remark_run_state|]. split.
  - intros [|i q]; [split; discriminate|]. split; intros Hnone.
    + destruct (node_at tree (i :: q)) as [m|] eqn:Hat; [|reflexivity].
      rewrite (node_at_remark_tree i q tree m Hat) in Hnone. discriminate.
    + destruct (node_at (remark_tree tree) (i :: q)) as [m'|] eqn:Hat;
        [|reflexivity].
      apply node_at_remark_tree_inv in Hat as (m & Hat & _). congruence.
  - intros [|i q] m Hat Hm.
    + cbn in Hat. injection Hat as ->. exists (remark_tree m).
      split; [reflexivity|]. rewrite (remark_tree_slot m Hm).
      now apply remark_slot_shape.
    + exists (remark_slot m). split; [now apply node_at_remark_tree|].
      now apply remark_slot_shape.
Qed.

(** X15.  What the markdown pass tells a logger: for [n] counted blocks, the
    [n] reports ["Remark transformed mermaid block #k in <file>"] for [k]
    from 1 to [n] in that order, followed by the total when [n] is not zero;
    with no block, or with no logger, nothing at all. *)
Theorem remark_reports (options : Options) (file : VFile) (tree : mdast) :
  exists tree' n,
    remarkMermaidPlugin options tree file
    = Some (tree',
            mkState n
              (if logger options
               then app
                      (map (fun k => "Remark transformed mermaid block #"
                                     ++ nat_to_string k ++ " in " ++ file_label file)
                         (seq 1 n))
                      (if Nat.ltb 0 n
                       then ["Remark total mermaid blocks transformed: "
                             ++ nat_to_string n]
                       else [])
               else [])).
Proof.
  exists (remark_tree tree), (remark_blocks tree).
  rewrite remark_run_state. unfold block_reports, closing_report.
  destruct (logger options); [|now rewrite andb_false_r].
  rewrite andb_true_r. reflexivity.
Qed.

(** X16.  The raw HTML the markdown pass writes for a diagram block holds
    exactly two [<], two [>] and two double quotes, those of its own
    [<pre class="mermaid">] and [</pre>], and no single quote: whatever the
    diagram source, none of its characters opens a tag or closes the
    attribute. *)
Theorem remark_container_delimiters (options : Options) (file : VFile)
    (tree : mdast) :
  exists tree' st,
    remarkMermaidPlugin options tree file = Some (tree', st)
    /\ (forall i q meta value,
          node_at tree (i :: q) = Some (MdCode (Some "mermaid") meta value) ->
          exists html,
            node_at tree' (i :: q) = Some (MdHtml html)
            /\ count_char "<" html = 2
            /\ count_char ">" html = 2
            /\ count_char dquote html = 2
            /\ count_char "'" html = 0).
Proof.
  exists (remark_tree tree). eexists. split; [apply remark_run_state|].
  intros i q meta value Hat. exists (mermaid_container value).
  split; [|apply mermaid_container_delimiters].
  now rewrite (node_at_remark_tree i q tree _ Hat).
Qed.

(** ** The client script: the theme *)

Section Theme.

Lemma own_get_themeMap (key value : string) :
  own_get themeMap key = Some value -> value = "default" \/ value = "dark".
Proof.
  unfold themeMap. cbn [own_get].
  repeat match goal with
         | |- context [if ?k =? key then _ else _] =>
             destruct (k =? key); [intros [= <-]; tauto|]
         end.
  discriminate.
Qed.

Lemma literal_get_themeMap (key : string) :
  literal_get themeMap key = VString "default"
  \/ literal_get themeMap key = VString "dark"
  \/ (literal_get themeMap key = VObject key /\ In key object_prototype_keys)
  \/ literal_get themeMap key = VUndefined.
Proof.
  unfold literal_get.
  destruct (own_get themeMap key) as [value|] eqn:Hown.
  - destruct (own_get_themeMap key value Hown) as [-> | ->]; tauto.
  - destruct (includes object_prototype_keys key) eqn:Hinc; [|tauto].
    apply includes_In in Hinc. tauto.
Qed.

End Theme.

(** X17.  The theme the client script renders with.  With automatic themes
    off it is the configured theme.  With them on, the [data-theme] of the
    [html] element decides when it is set and not empty, that of [body]
    otherwise; the theme is then [default] or [dark] when that name is one of
    the twelve of [themeMap] (whatever theme was configured), the member
    inherited from [Object.prototype] when the name is one of its twelve
    names (not a theme name at all), and the configured theme for every
    other name or when no attribute is set. *)
Theorem currentTheme_choice (defaultTheme : JsValue)
    (htmlTheme bodyTheme : option string) :
  currentTheme false defaultTheme htmlTheme bodyTheme = defaultTheme
  /\ (forall h, htmlTheme = Some h -> h <> "" ->
        forall other,
          currentTheme true defaultTheme htmlTheme bodyTheme
          = currentTheme true defaultTheme htmlTheme other)
  /\ (htmlTheme = None \/ htmlTheme = Some "" ->
        currentTheme true defaultTheme htmlTheme bodyTheme
        = currentTheme true defaultTheme None bodyTheme)
  /\ (forall name,
        attribute_or htmlTheme bodyTheme = Some name ->
        (exists theme, In (name, theme) themeMap) ->
        currentTheme true defaultTheme htmlTheme bodyTheme = VString "default"
        \/ currentTheme true defaultTheme htmlTheme bodyTheme = VString "dark")
  /\ (forall name,
        attribute_or htmlTheme bodyTheme = Some name ->
        In name object_prototype_keys ->
        currentTheme true defaultTheme htmlTheme bodyTheme = VObject name)
  /\ ((forall name, attribute_or htmlTheme bodyTheme = Some name ->
                    own_get themeMap name = None
                    /\ ~ In name object_prototype_keys) ->
      currentTheme true defaultTheme htmlTheme bodyTheme = defaultTheme).
Proof.
  split; [reflexivity|]. split; [|split; [|split; [|split]]].
  - intros h -> Hh other. unfold currentTheme, attribute_or.
    destruct (String.eqb_spec h ""); [contradiction | reflexivity].
  - intros [-> | ->]; reflexivity.
  - intros name Hattr [theme Hin]. unfold currentTheme. rewrite Hattr.
    cbn [property_key].
    assert (Hown : exists v, own_get themeMap name = Some v).
    { revert Hin. unfold themeMap. cbn [In own_get].
      intros Hin.
      repeat (destruct Hin as [[= <- <-]|Hin];
              [rewrite String.eqb_refl; eauto|];
              match goal with
              | |- context [if ?k =? name then _ else _] =>
                  destruct (k =? name); [eauto|]
              end).
      destruct Hin. }
    destruct Hown as (v & Hown). unfold literal_get. rewrite Hown.
    destruct (own_get_themeMap name v Hown) as [-> | ->]; cbn; tauto.
  - intros name Hattr Hin. unfold currentTheme. rewrite Hattr.
    cbn [property_key]. unfold literal_get.
    assert (Hown : own_get themeMap name = None).
    { revert Hin. unfold object_prototype_keys. cbn [In].
      intros Hin. decompose [or] Hin; subst; try reflexivity; contradiction. }
    rewrite Hown. apply includes_In in Hin. rewrite Hin. reflexivity.
  - intros Hother. unfold currentTheme.
    destruct (attribute_or htmlTheme bodyTheme) as [name|] eqn:Hattr.
    + destruct (Hother name eq_refl) as [Hown Hproto].
      cbn [property_key]. unfold literal_get. rewrite Hown.
      destruct (includes object_prototype_keys name) eqn:Hinc; [|reflexivity].
      apply includes_In in Hinc. contradiction.
    + reflexivity.
Qed.

(** ** The rewritten properties, as an object *)

Section PropertyOrder.

Lemma prop_set_keys_present (key : string) (v : PropertyValue) (props : Properties) :
  In key (map fst props) -> map fst (prop_set key v props) = map fst props.
Proof.
  induction props as [|[k w] rest IH]; [intros []|].
  cbn [prop_set map fst In].
  destruct (String.eqb_spec k key) as [->|Hne]; [reflexivity|].
  intros [Heq|Hin]; [contradiction|]. cbn [map fst]. now rewrite IH.
Qed.

Lemma prop_set_keys_absent (key : string) (v : PropertyValue) (props : Properties) :
  ~ In key (map fst props) ->
  map fst (prop_set key v props) = (map fst props ++ [key])%list.
Proof.
  induction props as [|[k w] rest IH]; [reflexivity|].
  cbn [prop_set map fst In].
  destruct (String.eqb_spec k key) as [->|Hne]; [tauto|].
  intros Hnin. cbn [map fst app]. rewrite IH by tauto. reflexivity.
Qed.

Lemma prop_set_keys_unique (key : string) (v : PropertyValue) (props : Properties) :
  NoDup (map fst props) -> NoDup (map fst (prop_set key v props)).
Proof.
  intros Hnd. destruct (in_dec string_dec key (map fst props)) as [Hin|Hnin].
  - now rewrite prop_set_keys_present.
  - rewrite prop_set_keys_absent by exact Hnin.
    apply NoDup_app; [exact Hnd | repeat constructor; intros [] |].
    intros k Hk [<-|[]]. contradiction.
Qed.

End PropertyOrder.

(** X18.  The properties of a rewritten [pre] are still an object with the
    keys in place: when the [pre] had a [className] the keys are the same
    list in the same order, when it had none [className] is added last, and
    keys that were all different stay all different. *)
Theorem rewritten_pre_key_order (options : Options) (file : VFile)
    (tree : hast) (p : list nat) (tagName : string) (props : option Properties)
    (children : option (list hast)) :
  node_at tree p = Some (Element tagName props children) ->
  outside_diagrams tree p = true ->
  is_mermaid_pre (Element tagName props children) = true ->
  exists tree' st props' children',
    rehypeMermaidPlugin options tree file = Some (tree', st)
    /\ node_at tree' p = Some (Element tagName (Some props') children')
    /\ (let keys := map fst (match props with Some ps => ps | None => [] end) in
        (In "className" keys -> map fst props' = keys)
        /\ (~ In "className" keys -> map fst props' = (keys ++ ["className"])%list)
        /\ (NoDup keys -> NoDup (map fst props'))).
Proof.
  intros Hat Hout Hm.
  assert (Hshape : exists codeNode, children = Some [codeNode]).
  { destruct children as [[|c [|]]|]; try discriminate Hm; [eauto|].
    now rewrite several_children_unmatched in Hm. }
  destruct Hshape as (codeNode & ->).
  exists (rehype_tree tree). eexists _, _, _.
  split; [apply rehype_run_state|]. split.
  - rewrite (node_at_rehype p tree _ Hout Hat), (rehype_tree_match _ Hm).
    reflexivity.
  - cbn zeta. split; [apply prop_set_keys_present|].
    split; [apply prop_set_keys_absent | apply prop_set_keys_unique].
Qed.

(** The property at a block with an [id], a class and a title. *)
Lemma rewritten_pre_key_order_witness :
  exists tree' st props' children',
    rehypeMermaidPlugin (mkOptions false)
      (code_block (Some [("id", PVString "d1"); ("className", PVArray ["x"]);
                         ("title", PVString "t")]) [Text "A"])
      (mkFile None)
    = Some (tree', st)
    /\ node_at tree' [] = Some (Element "pre" (Some props') children')
    /\ (let keys := ["id"; "className"; "title"] in
        (In "className" keys -> map fst props' = keys)
        /\ (~ In "className" keys -> map fst props' = (keys ++ ["className"])%list)
        /\ (NoDup keys -> NoDup (map fst props'))).
Proof.
  exact (rewritten_pre_key_order (mkOptions false) (mkFile None)
           (code_block (Some [("id", PVString "d1"); ("className", PVArray ["x"]);
                              ("title", PVString "t")]) [Text "A"])
           [] "pre" _ _ eq_refl eq_refl eq_refl).
Defined.
